(** * html-to-pdf: a shallow embedding of the converter and its properties

    The development follows the Python sources file by file:
    - [config.py]                (Module [Config])
    - [html_finder.py]           (Module [HTMLFileFinder])
    - [pdf_converter.py]         (Module [PDFConverter])
    - [html_to_pdf_converter.py] (Module [HTMLToPDFConverter])
    - [web_app.py]               (Module [WebApp], the statistics of [convert_files])

    preceded by the parts of the Python runtime the sources rely on:
    [str] as a sequence of Unicode code points, [pathlib]'s pure POSIX paths,
    a file system tree, exceptions with [try]/[except], and the fragment of
    the [re] module that the sanitizer's patterns are written in. *)

From Stdlib Require Import String Ascii List NArith ZArith Arith Bool Lia.
Import ListNotations.

Set Implicit Arguments.

(* ===================================================================== *)
(** * Python strings *)
(* ===================================================================== *)

(** A Python [str] is a sequence of Unicode code points. *)
Definition char := N.
Definition str := list char.

(** [U "..."] is the [str] of an ASCII literal. *)
Definition U (s : string) : str :=
  map N_of_ascii (list_ascii_of_string s).

Definition dquote : char := 34%N.   (* the double quote character *)
Definition squote : char := 39%N.   (* the single quote character *)
Definition newline : char := 10%N.

Definition str_eqb (a b : str) : bool :=
  if list_eq_dec N.eq_dec a b then true else false.

(** [x in l] for a list of strings. *)
Definition str_in (x : str) (l : list str) : bool := existsb (str_eqb x) l.

(** The part of the Unicode character database that is not written out
    below.  Everything ASCII, and the handful of non-ASCII code points that
    interact with ASCII (U+0130, U+0131, U+017F, U+212A), is fixed by the
    definitions of this file; the rest of the table is a parameter. *)
Class UnicodeData := {
  (** [str.lower()] of one code point outside ASCII, U+0130 and U+212A. *)
  ud_lower : char -> str;
  (** whether, under [re.IGNORECASE], a pattern character outside ASCII
      matches a character of the subject. *)
  ud_ignorecase : char -> char -> bool;
  (** [str.isalnum()] of one code point outside ASCII. *)
  ud_isalnum : char -> bool
}.

Definition is_ascii_upper (c : char) : bool := (65 <=? c)%N && (c <=? 90)%N.
Definition is_ascii_lower (c : char) : bool := (97 <=? c)%N && (c <=? 122)%N.
Definition is_ascii_digit (c : char) : bool := (48 <=? c)%N && (c <=? 57)%N.
Definition is_ascii (c : char) : bool := (c <? 128)%N.

Definition ascii_lower (c : char) : char :=
  if is_ascii_upper c then (c + 32)%N else c.

(** [str.isspace()], which is also [\s] of a [str] pattern:
    the code points of bidirectional type WS, B or S, or of category Zs. *)
Definition isspace (c : char) : bool :=
  ((9 <=? c) && (c <=? 13) || (28 <=? c) && (c <=? 32) ||
   (c =? 133) || (c =? 160) || (c =? 5760) ||
   (8192 <=? c) && (c <=? 8202) || (c =? 8232) || (c =? 8233) ||
   (c =? 8239) || (c =? 8287) || (c =? 12288))%N.

Section Unicode.
Context {UD : UnicodeData}.

(** [str.lower()] maps every code point to its full lower-case mapping.
    U+0130 (capital I with dot above) is the one code point whose mapping
    is two code points long: [i] followed by U+0307. *)
Definition lower_char (c : char) : str :=
  if is_ascii c then [ascii_lower c]
  else if (c =? 304)%N then [105; 775]%N
  else if (c =? 8490)%N then [107]%N
  else ud_lower c.

Definition lower (s : str) : str := flat_map lower_char s.

(** [s.startswith(sub)] *)
Fixpoint starts_with (sub s : str) : bool :=
  match sub, s with
  | [], _ => true
  | a :: sub', b :: s' => (a =? b)%N && starts_with sub' s'
  | _ :: _, [] => false
  end.

(** [sub in s] *)
Fixpoint contains (sub s : str) : bool :=
  starts_with sub s ||
  match s with
  | [] => false
  | _ :: s' => contains sub s'
  end.

(** [s.find(sub)]: the lowest index where [sub] occurs, or -1. *)
Fixpoint find (sub s : str) : Z :=
  if starts_with sub s then 0%Z
  else match s with
       | [] => (-1)%Z
       | _ :: s' =>
           let i := find sub s' in
           if (i <? 0)%Z then (-1)%Z else (i + 1)%Z
       end.

(** The slices [s[:k]] and [s[k:]]; a negative index counts from the
    end. *)
Definition slice_index (s : str) (k : Z) : nat :=
  if (k <? 0)%Z then Z.to_nat (Z.of_nat (length s) + k) else Z.to_nat k.

Definition slice_to (s : str) (k : Z) : str := firstn (slice_index s k) s.
Definition slice_from (s : str) (k : Z) : str := skipn (slice_index s k) s.

(** [s.rfind('.')] *)
Fixpoint rfind_char (c : char) (s : str) : option nat :=
  match s with
  | [] => None
  | x :: s' =>
      match rfind_char c s' with
      | Some i => Some (S i)
      | None => if (x =? c)%N then Some 0 else None
      end
  end.

(** [s.strip()] removes leading and trailing whitespace. *)
Fixpoint lstrip (s : str) : str :=
  match s with
  | c :: s' => if isspace c then lstrip s' else s
  | [] => []
  end.

Definition rstrip (s : str) : str := rev (lstrip (rev s)).
Definition strip (s : str) : str := rstrip (lstrip s).

(** [sep.join(l)] *)
Fixpoint join (sep : str) (l : list str) : str :=
  match l with
  | [] => []
  | [x] => x
  | x :: l' => x ++ sep ++ join sep l'
  end.

(** [s.split(c)] for a one-character separator. *)
Fixpoint split_on (c : char) (s : str) : list str :=
  match s with
  | [] => [[]]
  | x :: s' =>
      match split_on c s' with
      | w :: ws => if (x =? c)%N then [] :: w :: ws else (x :: w) :: ws
      | [] => [[x]]
      end
  end.
End Unicode.

(* ===================================================================== *)
(** * pathlib: pure POSIX paths *)
(* ===================================================================== *)

Module pathlib.

(** A parsed path: its root (empty, one slash or two slashes) and the
    names after it.  (POSIX paths have no drive.) *)
Record Path := mkPath { root : str; names : list str }.

Definition slash : char := 47%N.
Definition dot : char := 46%N.

(** [Path(s)]: split at ['/'], drop empty and ['.'] components.  Exactly
    two leading slashes are kept as a root of their own. *)
Definition parse_root (s : str) : str :=
  match s with
  | a :: b :: c :: _ =>
      if (a =? slash)%N then
        if (b =? slash)%N then
          if (c =? slash)%N then [slash] else [slash; slash]
        else [slash]
      else []
  | [a; b] =>
      if (a =? slash)%N then
        if (b =? slash)%N then [slash; slash] else [slash]
      else []
  | [a] => if (a =? slash)%N then [slash] else []
  | [] => []
  end.

Definition of_str (s : str) : Path :=
  mkPath (parse_root s)
         (filter (fun x => negb (str_eqb x []) && negb (str_eqb x [dot]))
                 (split_on slash s)).

(** [str(p)] *)
Definition to_str (p : Path) : str :=
  match root p, names p with
  | [], [] => [dot]
  | r, ns => r ++ join [slash] ns
  end.

Definition is_absolute (p : Path) : bool :=
  match root p with [] => false | _ => true end.

(** [p.name]: the final component, [''] when there is none. *)
Definition name (p : Path) : str := last (names p) [].

(** The index of the dot that starts the suffix of a file name:
    [i = name.rfind('.')] when [0 < i < len(name) - 1]. *)
Definition suffix_index (nm : str) : option nat :=
  match rfind_char dot nm with
  | Some i => if (0 <? i) && (i <? length nm - 1) then Some i else None
  | None => None
  end.

(** [p.suffix] *)
Definition suffix (p : Path) : str :=
  match suffix_index (name p) with
  | Some i => skipn i (name p)
  | None => []
  end.

(** [p.stem] *)
Definition stem (p : Path) : str :=
  match suffix_index (name p) with
  | Some i => firstn i (name p)
  | None => name p
  end.

(** [p.parent]: a path without names is its own parent. *)
Definition parent (p : Path) : Path :=
  match names p with
  | [] => p
  | _ => mkPath (root p) (removelast (names p))
  end.

(** [p / q]: an absolute right operand replaces the left one. *)
Definition truediv (p q : Path) : Path :=
  if is_absolute q then q
  else mkPath (root p) (names p ++ names q).

(** [p / s] for a [str] operand. *)
Definition truediv_str (p : Path) (s : str) : Path := truediv p (of_str s).

Fixpoint strip_prefix (pre l : list str) : option (list str) :=
  match pre, l with
  | [], _ => Some l
  | a :: pre', b :: l' => if str_eqb a b then strip_prefix pre' l' else None
  | _ :: _, [] => None
  end.

(** [p.relative_to(other)]: [None] stands for the [ValueError] raised
    when [other] is not [p] or one of its parents. *)
Definition relative_to (p other : Path) : option Path :=
  if str_eqb (root p) (root other) then
    match strip_prefix (names other) (names p) with
    | Some rest => Some (mkPath [] rest)
    | None => None
    end
  else None.

End pathlib.

Import pathlib.
Notation "p // q" := (truediv p q) (at level 40, left associativity).

(* ===================================================================== *)
(** * config.py *)
(* ===================================================================== *)

Module Config.
Section Config.
Context {UD : UnicodeData}.

Definition DEFAULT_OUTPUT_DIR : str := U "output".
Definition SUPPORTED_EXTENSIONS : list str := [U ".html"; U ".htm"].

Definition get_output_dir (base_path : str) : Path :=
  truediv_str (of_str base_path) DEFAULT_OUTPUT_DIR.

Definition is_html_file (file_path : Path) : bool :=
  str_in (lower (suffix file_path)) SUPPORTED_EXTENSIONS.
End Config.
End Config.

(* ===================================================================== *)
(** * Exceptions, and the state-and-exception monad of the embedding *)
(* ===================================================================== *)

(** The exception classes that occur.  [KeyboardInterrupt] and [SystemExit]
    derive from [BaseException] only, all others from [Exception]. *)
Inductive exn :=
| FileNotFoundError | NotADirectoryError | IsADirectoryError
| FileExistsError | PermissionError | OSError
| UnicodeDecodeError | ValueError
| re_error | RecursionError | MemoryError | RuntimeError
| KeyboardInterrupt | SystemExit.

(** [isinstance(e, Exception)] *)
Definition is_Exception (e : exn) : bool :=
  match e with
  | KeyboardInterrupt | SystemExit => false
  | _ => true
  end.

Inductive outcome (A : Type) :=
| Return (a : A)
| Raise (e : exn).
Arguments Return {A} a.
Arguments Raise {A} e.

(** A computation over a mutable state [S]: it returns or raises, and in
    both cases leaves a state behind. *)
Definition M (S A : Type) := S -> outcome A * S.

Definition ret {S A} (a : A) : M S A := fun s => (Return a, s).
Definition raise {S A} (e : exn) : M S A := fun s => (Raise e, s).

Definition bind {S A B} (m : M S A) (k : A -> M S B) : M S B :=
  fun s =>
    match m s with
    | (Return a, s') => k a s'
    | (Raise e, s') => (Raise e, s')
    end.

Definition get {S} : M S S := fun s => (Return s, s).
Definition put {S} (s : S) : M S unit := fun _ => (Return tt, s).

Declare Scope py_scope.
Delimit Scope py_scope with py.
Notation "x <- m ;; k" := (bind m (fun x => k))
  (at level 61, m at next level, right associativity) : py_scope.
Notation "m ;;; k" := (bind m (fun _ => k))
  (at level 61, right associativity) : py_scope.
Open Scope py_scope.

(** [try: body  except Exception as e: handler e] *)
Definition try_except_Exception {S A}
    (body : M S A) (handler : exn -> M S A) : M S A :=
  fun s =>
    match body s with
    | (Return a, s') => (Return a, s')
    | (Raise e, s') =>
        if is_Exception e then handler e s' else (Raise e, s')
    end.

(** [try: body  except: handler] (a bare [except] catches everything) *)
Definition try_except_all {S A} (body : M S A) (handler : M S A) : M S A :=
  fun s =>
    match body s with
    | (Return a, s') => (Return a, s')
    | (Raise _, s') => handler s'
    end.

(* ===================================================================== *)
(** * The file system and the surroundings of the program *)
(* ===================================================================== *)

Definition bytes := list N.

(** A file system tree.  [Special] stands for anything that is neither a
    regular file nor a directory (sockets, FIFOs, devices). *)
Unset Elimination Schemes.
Inductive node :=
| File (data : bytes)
| Special
| Dir (entries : list (str * node)).
Set Elimination Schemes.

(** Induction on trees: the property holds of a directory when it holds
    of every entry. *)
Fixpoint node_ind (P : node -> Prop)
    (HFile : forall data, P (File data))
    (HSpecial : P Special)
    (HDir : forall es, Forall (fun e => P (snd e)) es -> P (Dir es))
    (n : node) : P n :=
  match n with
  | File data => HFile data
  | Special => HSpecial
  | Dir es =>
      HDir es
        ((fix all (es : list (str * node)) : Forall (fun e => P (snd e)) es :=
            match es with
            | [] => Forall_nil _
            | (x, c) :: es' =>
                Forall_cons (x, c) (node_ind P HFile HSpecial HDir c) (all es')
            end) es)
  end.

Fixpoint lookup_entry (x : str) (es : list (str * node)) : option node :=
  match es with
  | [] => None
  | (y, n) :: es' => if str_eqb x y then Some n else lookup_entry x es'
  end.

Fixpoint update_entry (x : str) (n : node) (es : list (str * node))
  : list (str * node) :=
  match es with
  | [] => [(x, n)]
  | (y, m) :: es' =>
      if str_eqb x y then (y, n) :: es' else (y, m) :: update_entry x n es'
  end.

(** The node that a list of names leads to. *)
Fixpoint lookup (n : node) (p : list str) : option node :=
  match p with
  | [] => Some n
  | x :: p' =>
      match n with
      | Dir es =>
          match lookup_entry x es with
          | Some c => lookup c p'
          | None => None
          end
      | _ => None
      end
  end.

(** Every entry strictly beneath a node, parents before their children:
    the names that lead to it. This is what [rglob("*")] enumerates. *)
Fixpoint walk (n : node) : list (list str) :=
  match n with
  | Dir es =>
      (fix walk_entries (es : list (str * node)) : list (list str) :=
         match es with
         | [] => []
         | (x, c) :: es' =>
             ([x] :: map (cons x) (walk c)) ++ walk_entries es'
         end) es
  | _ => []
  end.

(** [mkdir(parents=True, exist_ok=True)]: creates the missing directories
    on the way; an existing directory is accepted, anything else in the way
    is an error. *)
Fixpoint mkdir_parents (n : node) (p : list str) : outcome node :=
  match p with
  | [] =>
      match n with
      | Dir _ => Return n
      | _ => Raise FileExistsError
      end
  | x :: p' =>
      match n with
      | Dir es =>
          match lookup_entry x es with
          | Some c =>
              match mkdir_parents c p' with
              | Return c' => Return (Dir (update_entry x c' es))
              | Raise e => Raise e
              end
          | None =>
              match mkdir_parents (Dir []) p' with
              | Return c' => Return (Dir (update_entry x c' es))
              | Raise e => Raise e
              end
          end
      | _ => Raise NotADirectoryError
      end
  end.

(** The tree in which the file at [p] holds [data], as [open(p, 'wb')]
    (with no data) and [write] make it: the parent must be a directory;
    a missing file is created; a special file takes the bytes and stays
    what it is. *)
Fixpoint write_bytes (n : node) (p : list str) (data : bytes) : outcome node :=
  match p with
  | [] =>
      match n with
      | File _ => Return (File data)
      | Special => Return Special
      | Dir _ => Raise IsADirectoryError
      end
  | x :: p' =>
      match n with
      | Dir es =>
          match lookup_entry x es with
          | Some c =>
              match write_bytes c p' data with
              | Return c' => Return (Dir (update_entry x c' es))
              | Raise e => Raise e
              end
          | None =>
              match p' with
              | [] => Return (Dir (update_entry x (File data) es))
              | _ => Raise FileNotFoundError
              end
          end
      | _ => Raise NotADirectoryError
      end
  end.

(** The state of the world: the file system, the working directory that
    relative paths start from, and a clock counting the system calls made
    so far. *)
Record World := mkWorld {
  fs : node;
  cwd : list str;
  clock : nat
}.

(** The result object of [pisa.CreatePDF]: its error count and the bytes
    left in the destination buffer. *)
Record pisa_status := mkStatus { err : nat; dest : bytes }.

(** What the program does not control:
    - the rendering engine [pisa.CreatePDF], which returns a status or
      raises;
    - faults of the operating system and interruptions by the user, which
      may hit any system call ([fault_at] is indexed by the clock);
    - text decoding of file contents ([None]: [UnicodeDecodeError]);
    - what reading a special file (a device, a FIFO) yields;
    - how many bytes have reached the file when a write fails. *)
Record Env := mkEnv {
  pisa_CreatePDF : str -> outcome pisa_status;
  fault_at : nat -> option exn;
  decode_utf8 : bytes -> option str;
  read_special : list str -> bytes;
  short_write : nat -> nat
}.

(** The names that lead from the top of the file system to [p].  Names
    are looked up as they are written: symbolic links and [..] are outside
    the model.  Queries ([exists], [is_dir], [is_file], [rglob]) only read
    the tree; the faults of the surroundings hit the calls that read or
    write file contents, make directories, or render.  So the tree stands
    for a file system all of whose entries can be examined: a query that
    fails (as [is_file] does with [PermissionError] on an entry it may
    not examine) and console output that fails are outside the model. *)
Definition fs_key (w : World) (p : Path) : list str :=
  if is_absolute p then names p else cwd w ++ names p.

Definition stat (w : World) (p : Path) : option node :=
  lookup (fs w) (fs_key w p).

(** [p.exists()], [p.is_dir()], [p.is_file()] *)
Definition Path_exists (w : World) (p : Path) : bool :=
  match stat w p with Some _ => true | None => false end.

Definition is_dir (w : World) (p : Path) : bool :=
  match stat w p with Some (Dir _) => true | _ => false end.

Definition is_file (w : World) (p : Path) : bool :=
  match stat w p with Some (File _) => true | _ => false end.

(** [p.rglob("*")]: every path beneath [p], made of [p] and the names that
    lead to the entry. *)
Definition rglob_star (w : World) (p : Path) : list Path :=
  match stat w p with
  | Some d => map (fun q => mkPath (root p) (names p ++ q)) (walk d)
  | None => []
  end.

Section SystemCalls.
Variable E : Env.

(** A system call: the clock advances; the call fails if the
    surroundings say so at this instant and runs otherwise. *)
Definition syscall {A} (body : M World A) : M World A :=
  fun w =>
    let w' := mkWorld (fs w) (cwd w) (S (clock w)) in
    match fault_at E (clock w) with
    | Some e => (Raise e, w')
    | None => body w'
    end.

(** [p.mkdir(parents=True, exist_ok=True)] *)
Definition Path_mkdir (p : Path) : M World unit :=
  syscall (fun w =>
    match mkdir_parents (fs w) (fs_key w p) with
    | Return t => (Return tt, mkWorld t (cwd w) (clock w))
    | Raise e => (Raise e, w)
    end).

(** [with open(p, 'r', encoding='utf-8') as f: f.read()]: a regular
    file yields its bytes, a special file what the surroundings give. *)
Definition read_text (p : Path) : M World str :=
  syscall (fun w =>
    match stat w p with
    | Some (File data) =>
        match decode_utf8 E data with
        | Some s => (Return s, w)
        | None => (Raise UnicodeDecodeError, w)
        end
    | Some Special =>
        match decode_utf8 E (read_special E (fs_key w p)) with
        | Some s => (Return s, w)
        | None => (Raise UnicodeDecodeError, w)
        end
    | Some (Dir _) => (Raise IsADirectoryError, w)
    | None => (Raise FileNotFoundError, w)
    end).

(** [open(p, 'wb')]: the file is created, or truncated when it exists,
    before anything is written. *)
Definition open_wb (p : Path) : M World unit :=
  syscall (fun w =>
    match write_bytes (fs w) (fs_key w p) [] with
    | Return t => (Return tt, mkWorld t (cwd w) (clock w))
    | Raise e => (Raise e, w)
    end).

(** [f.write(data)] on the file opened at [p], with the close that ends
    the [with] block.  When the surroundings fail the call, the part of
    the data that has reached the file stays in it. *)
Definition file_write (p : Path) (data : bytes) : M World unit :=
  fun w =>
    let w' := mkWorld (fs w) (cwd w) (S (clock w)) in
    match fault_at E (clock w) with
    | Some e =>
        match write_bytes (fs w) (fs_key w p)
                (firstn (short_write E (clock w)) data) with
        | Return t => (Raise e, mkWorld t (cwd w) (S (clock w)))
        | Raise _ => (Raise e, w')
        end
    | None =>
        match write_bytes (fs w) (fs_key w p) data with
        | Return t => (Return tt, mkWorld t (cwd w) (S (clock w)))
        | Raise e => (Raise e, w')
        end
    end.

(** [pisa.CreatePDF(html, dest=result_file, encoding='utf-8')] *)
Definition CreatePDF (html : str) : M World pisa_status :=
  syscall (fun w => (pisa_CreatePDF E html, w)).
End SystemCalls.

(* ===================================================================== *)
(** * html_finder.py *)
(* ===================================================================== *)

Module HTMLFileFinder.
Section HTMLFileFinder.
Context {UD : UnicodeData}.

Record t := mk { base_path : Path }.

(** [HTMLFileFinder(base_path)] *)
Definition __init__ (base_path : str) : M World t :=
  fun w =>
    let self_base_path := of_str base_path in
    if negb (Path_exists w self_base_path) then
      (Raise FileNotFoundError, w)
    else if negb (is_dir w self_base_path) then
      (Raise NotADirectoryError, w)
    else (Return (mk self_base_path), w).

(** The generator [find_html_files], as the list of what it yields. *)
Definition find_html_files (self : t) (w : World) : list Path :=
  filter (fun file_path =>
            is_file w file_path && Config.is_html_file file_path)
         (rglob_star w (base_path self)).

Definition get_html_files_list (self : t) (w : World) : list Path :=
  find_html_files self w.

(** [get_relative_path]: [relative_to] raises [ValueError]. *)
Definition get_relative_path {S} (self : t) (file_path : Path)
  : M S Path :=
  match relative_to file_path (base_path self) with
  | Some r => ret r
  | None => raise ValueError
  end.
End HTMLFileFinder.
End HTMLFileFinder.

(* ===================================================================== *)
(** * The fragment of the [re] module used by the sanitizer *)
(* ===================================================================== *)

(** Every pattern of [pdf_converter.py] is a sequence of single-character
    classes, each with a quantifier, and has at most one capturing group,
    around one such item.  Matching is by backtracking, in the priority
    order of Python's engine: a greedy quantifier tries the longest
    repetition first, a lazy one the shortest. *)
Module re.

Record flags := mkFlags { ignorecase : bool; dotall : bool }.

(** No flags, [re.IGNORECASE], and [re.DOTALL | re.IGNORECASE]. *)
Definition NOFLAG : flags := mkFlags false false.
Definition IGNORECASE : flags := mkFlags true false.
Definition DOTALL_IGNORECASE : flags := mkFlags true true.

Inductive cls :=
| Lit (c : char)             (* an ordinary character *)
| AnyChar                    (* .      *)
| Space                      (* \s     *)
| Word                       (* \w     *)
| OneOf (cs : list char)     (* [...]  *)
| NotIn (cs : list char).    (* [^...] *)

Inductive quant :=
| One                        (* no quantifier *)
| Opt                        (* ?  *)
| Star                       (* *  *)
| LazyStar                   (* *? *)
| Plus.                      (* +  *)

Inductive item :=
| Atom (q : quant) (c : cls)
| Group (q : quant) (c : cls).   (* ( ... ) *)

Definition pattern := list item.

(** The pattern text [s] made of ordinary ASCII characters. *)
Definition lit (s : string) : pattern := map (fun c => Atom One (Lit c)) (U s).

(** [re.escape(s)] spliced into a pattern: it matches [s] literally. *)
Definition escape (s : str) : pattern := map (fun c => Atom One (Lit c)) s.

(** A replacement template: text and references to group 1. *)
Inductive titem :=
| TText (s : str)
| TGroup1.                   (* \1 *)
Definition template := list titem.

Section Matching.
Context {UD : UnicodeData}.

(** [re.IGNORECASE] for a pattern character [p]: a subject character
    matches when its lower case is that of [p]; in addition [i] matches
    U+0130 and U+0131, [s] matches U+017F and [k] matches U+212A. *)
Definition ignorecase_match (p x : char) : bool :=
  if is_ascii p then
    (is_ascii x && (ascii_lower x =? ascii_lower p)%N)
    || ((ascii_lower p =? 105)%N && ((x =? 304) || (x =? 305))%N)
    || ((ascii_lower p =? 115)%N && (x =? 383)%N)
    || ((ascii_lower p =? 107)%N && (x =? 8490)%N)
  else ud_ignorecase p x.

Definition lit_match (fl : flags) (p x : char) : bool :=
  if ignorecase fl then ignorecase_match p x else (p =? x)%N.

Definition isword (x : char) : bool :=
  if is_ascii x then
    is_ascii_upper x || is_ascii_lower x || is_ascii_digit x || (x =? 95)%N
  else ud_isalnum x.

Definition cls_match (fl : flags) (c : cls) (x : char) : bool :=
  match c with
  | Lit p => lit_match fl p x
  | AnyChar => dotall fl || negb (x =? newline)%N
  | Space => isspace x
  | Word => isword x
  | OneOf cs => existsb (fun p => lit_match fl p x) cs
  | NotIn cs => negb (existsb (fun p => lit_match fl p x) cs)
  end.

(** The remainders after a greedy repetition, longest repetition
    first. *)
Fixpoint star_greedy (fl : flags) (c : cls) (s : str) : list str :=
  match s with
  | x :: s' =>
      if cls_match fl c x then star_greedy fl c s' ++ [s] else [s]
  | [] => [[]]
  end.

(** The remainders after a lazy repetition, shortest repetition
    first. *)
Fixpoint star_lazy (fl : flags) (c : cls) (s : str) : list str :=
  s :: match s with
       | x :: s' => if cls_match fl c x then star_lazy fl c s' else []
       | [] => []
       end.

(** The ways one quantified class can match at the start of [s]: the
    remainders of [s], in the order in which the engine tries them. *)
Definition atom_match (fl : flags) (q : quant) (c : cls) (s : str)
  : list str :=
  match q with
  | One =>
      match s with
      | x :: s' => if cls_match fl c x then [s'] else []
      | [] => []
      end
  | Opt =>
      match s with
      | x :: s' => if cls_match fl c x then [s'; s] else [s]
      | [] => [s]
      end
  | Star => star_greedy fl c s
  | LazyStar => star_lazy fl c s
  | Plus =>
      match s with
      | x :: s' => if cls_match fl c x then star_greedy fl c s' else []
      | [] => []
      end
  end.

(** All the ways the pattern can match at the start of [s], as pairs of
    the text captured by group 1 and the remainder of [s], in the order
    in which the engine finds them. *)
Fixpoint pattern_match (fl : flags) (p : pattern) (g : option str)
    (s : str) : list (option str * str) :=
  match p with
  | [] => [(g, s)]
  | Atom q c :: p' =>
      flat_map (pattern_match fl p' g) (atom_match fl q c s)
  | Group q c :: p' =>
      flat_map
        (fun rest =>
           pattern_match fl p'
             (Some (firstn (length s - length rest) s)) rest)
        (atom_match fl q c s)
  end.

(** The match the engine reports at the start of [s], if any.  After an
    empty match the next search at the same position must advance: it
    rejects empty matches. *)
Definition match_at (fl : flags) (p : pattern) (must_advance : bool)
    (s : str) : option (option str * str) :=
  List.find
    (fun m => negb must_advance || (length (snd m) <? length s))
    (pattern_match fl p None s).

Inductive token :=
| Keep (c : char)                         (* a character outside any match *)
| Hit (text : str) (group1 : option str). (* a match *)

Definition hit (s : str) (m : option str * str) : token :=
  Hit (firstn (length s - length (snd m)) s) (fst m).

(** The leftmost, non-overlapping matches in [s], from left to right,
    with the characters between them.  [skip] counts the characters of
    the current match that are still to be passed. *)
Fixpoint scan (fl : flags) (p : pattern) (s : str) (skip : nat)
  : list token :=
  match skip with
  | S k =>
      match s with
      | [] => []
      | _ :: s' => scan fl p s' k
      end
  | 0 =>
      match match_at fl p false s with
      | None =>
          match s with
          | [] => []
          | c :: s' => Keep c :: scan fl p s' 0
          end
      | Some m =>
          match length s - length (snd m) with
          | S k =>
              hit s m ::
              match s with
              | [] => []
              | _ :: s' => scan fl p s' k
              end
          | 0 =>
              hit s m ::
              match match_at fl p true s with
              | Some m' =>
                  hit s m' ::
                  match s with
                  | [] => []
                  | _ :: s' =>
                      scan fl p s' (length s - length (snd m') - 1)
                  end
              | None =>
                  match s with
                  | [] => []
                  | c :: s' => Keep c :: scan fl p s' 0
                  end
              end
          end
      end
  end.

Definition expand (repl : template) (group1 : option str) : str :=
  flat_map (fun t =>
              match t with
              | TText s => s
              | TGroup1 => match group1 with Some g => g | None => [] end
              end) repl.

(** [re.sub(p, repl, s, flags=fl)] *)
Definition sub (fl : flags) (p : pattern) (repl : template) (s : str)
  : str :=
  flat_map (fun t =>
              match t with
              | Keep c => [c]
              | Hit _ g => expand repl g
              end) (scan fl p s 0).

Definition has_group (p : pattern) : bool :=
  existsb (fun i => match i with Group _ _ => true | _ => false end) p.

(** [re.findall(p, s, flags=fl)]: the texts of group 1 when the pattern
    has a group, the matched texts otherwise. *)
Definition findall (fl : flags) (p : pattern) (s : str) : list str :=
  flat_map (fun t =>
              match t with
              | Keep _ => []
              | Hit text g =>
                  if has_group p
                  then [match g with Some x => x | None => [] end]
                  else [text]
              end) (scan fl p s 0).
End Matching.

End re.

(** The interface of the Python runtime as the sanitizer sees it: the [re]
    functions may raise ([re.error], [RecursionError], [MemoryError], ...),
    always an instance of [Exception]; the order in which a [set] of strings
    is iterated is up to the runtime. *)
Class PyRuntime := {
  re_sub : re.flags -> re.pattern -> re.template -> str -> outcome str;
  re_findall : re.flags -> re.pattern -> str -> outcome (list str);
  set_iter : list str -> list str;
  re_sub_raises : forall fl p r s e,
      re_sub fl p r s = Raise e -> is_Exception e = true;
  re_findall_raises : forall fl p s e,
      re_findall fl p s = Raise e -> is_Exception e = true
}.

(** The runtime in which the [re] functions always succeed, with the
    backtracking semantics defined above. *)
(** A call that returned did not raise. *)
Definition returned {A} (a : A) (e : exn) (H : Return a = Raise e)
  : is_Exception e = true :=
  match H in (_ = o)
        return (match o with Return _ => True | Raise e' => is_Exception e' = true end)
  with eq_refl => I end.

#[export] Instance CPython {UD : UnicodeData} : PyRuntime := {|
  re_sub fl p r s := Return (re.sub fl p r s);
  re_findall fl p s := Return (re.findall fl p s);
  set_iter l := nodup (list_eq_dec N.eq_dec) l;
  re_sub_raises fl p r s e := @returned _ _ e;
  re_findall_raises fl p s e := @returned _ _ e
|}.

(* ===================================================================== *)
(** * pdf_converter.py *)
(* ===================================================================== *)

(** [for x in l: body x] *)
Fixpoint for_each {S A} (l : list A) (body : A -> M S unit) : M S unit :=
  match l with
  | [] => ret tt
  | x :: l' => body x ;;; for_each l' body
  end.

(** A computation that does not touch the state. *)
Definition pure {S A} (o : outcome A) : M S A := fun s => (o, s).

Module PDFConverter.

Import re.

Definition lt_sign : char := 60%N.    (* < *)
Definition gt_sign : char := 62%N.    (* > *)
Definition eq_sign : char := 61%N.    (* = *)
Definition quotes : list char := [dquote; squote].

(** ** The patterns of [_sanitize_css_for_pdf] *)

(** [<style[^>]*>.*?</style>] *)
Definition style_pattern : pattern :=
  lit "<style" ++ [Atom Star (NotIn [gt_sign]); Atom One (Lit gt_sign);
                   Atom LazyStar AnyChar] ++ lit "</style>".

(** The common tail [\s*=\s*[QUOTES][^QUOTES]*[QUOTES]] of the attribute
    patterns, where QUOTES are the two quote characters. *)
Definition quoted_value : pattern :=
  [Atom Star Space; Atom One (Lit eq_sign); Atom Star Space;
   Atom One (OneOf quotes); Atom Star (NotIn quotes);
   Atom One (OneOf quotes)].

(** [\sstyle] followed by the tail above *)
Definition inline_style_pattern : pattern :=
  [Atom One Space] ++ lit "style" ++ quoted_value.

(** [<link[^>]*rel\s*=\s*[QUOTES]stylesheet[QUOTES][^>]*>] *)
Definition link_css_pattern : pattern :=
  lit "<link" ++ [Atom Star (NotIn [gt_sign])] ++ lit "rel" ++
  [Atom Star Space; Atom One (Lit eq_sign); Atom Star Space;
   Atom One (OneOf quotes)] ++ lit "stylesheet" ++
  [Atom One (OneOf quotes); Atom Star (NotIn [gt_sign]);
   Atom One (Lit gt_sign)].

(** [\sclass] followed by the tail above *)
Definition class_pattern : pattern :=
  [Atom One Space] ++ lit "class" ++ quoted_value.

(** [css_attributes = ['id', 'data-.*', 'aria-.*', 'role']]: pieces of
    pattern text, spliced into [attr_pattern]. *)
Definition css_attributes : list pattern :=
  [ lit "id";
    lit "data-" ++ [Atom Star AnyChar];
    lit "aria-" ++ [Atom Star AnyChar];
    lit "role" ].

(** [\s{attr}] followed by the tail above *)
Definition attr_pattern (attr : pattern) : pattern :=
  [Atom One Space] ++ attr ++ quoted_value.

(** [<script[^>]*>.*?</script>] *)
Definition script_pattern : pattern :=
  lit "<script" ++ [Atom Star (NotIn [gt_sign]); Atom One (Lit gt_sign);
                    Atom LazyStar AnyChar] ++ lit "</script>".

(** [\s+], [>\s+<], [<\s+], [\s+>] *)
Definition spaces_pattern : pattern := [Atom Plus Space].
Definition between_tags_pattern : pattern :=
  [Atom One (Lit gt_sign); Atom Plus Space; Atom One (Lit lt_sign)].
Definition after_lt_pattern : pattern :=
  [Atom One (Lit lt_sign); Atom Plus Space].
Definition before_gt_pattern : pattern :=
  [Atom Plus Space; Atom One (Lit gt_sign)].

(** The patterns of the fallback: [<(\w+)[^>]*>], [</?(\w+)[^>]*>] and
    [</?{re.escape(tag)}[^>]*>]. *)
Definition open_tag_pattern : pattern :=
  [Atom One (Lit lt_sign); Group Plus Word; Atom Star (NotIn [gt_sign]);
   Atom One (Lit gt_sign)].
Definition any_tag_pattern : pattern :=
  [Atom One (Lit lt_sign); Atom Opt (Lit 47%N); Group Plus Word;
   Atom Star (NotIn [gt_sign]); Atom One (Lit gt_sign)].
Definition tag_pattern (tag : str) : pattern :=
  [Atom One (Lit lt_sign); Atom Opt (Lit 47%N)] ++ escape tag ++
  [Atom Star (NotIn [gt_sign]); Atom One (Lit gt_sign)].

Definition basic_tags : list str :=
  map U ["p"; "h1"; "h2"; "h3"; "h4"; "h5"; "h6"; "div"; "span"; "ul";
         "ol"; "li"; "table"; "tr"; "td"; "th"; "br"; "strong"; "em";
         "b"; "i"]%string.

Definition placeholder : str :=
  U "<html><body><p>Content processing failed - original content could not be parsed safely for PDF conversion.</p></body></html>".

(** ** The print stylesheet of [_enhance_html_for_pdf] *)
Definition pdf_css : str :=
    U "
        <style type=" ++ [dquote] ++
    U "text/css" ++ [dquote] ++
    U ">
        @page {
            size: A4;
            margin: 0.75in;
        }
        
        body {
            font-family: Arial, sans-serif;
            line-height: 1.4;
            color: #333;
            font-size: 12pt;
        }
        
        h1, h2, h3, h4, h5, h6 {
            page-break-after: avoid;
            margin-top: 1em;
            margin-bottom: 0.5em;
            color: #222;
        }
        
        h1 { font-size: 18pt; }
        h2 { font-size: 16pt; }
        h3 { font-size: 14pt; }
        h4 { font-size: 13pt; }
        h5 { font-size: 12pt; }
        h6 { font-size: 11pt; }
        
        p {
            margin-bottom: 0.8em;
            text-align: justify;
        }
        
        img {
            max-width: 100%;
            height: auto;
            page-break-inside: avoid;
        }
        
        table {
            page-break-inside: avoid;
            border-collapse: collapse;
            width: 100%;
            margin-bottom: 1em;
        }
        
        table td, table th {
            border: 1px solid #ddd;
            padding: 8px;
            text-align: left;
        }
        
        table th {
            background-color: #f2f2f2;
            font-weight: bold;
        }
        
        pre, code {
            font-family: " ++ [dquote] ++
    U "Courier New" ++ [dquote] ++
    U ", monospace;
            background-color: #f5f5f5;
            padding: 0.2em 0.4em;
            border-radius: 3px;
            font-size: 11pt;
        }
        
        pre {
            padding: 1em;
            overflow: hidden;
            page-break-inside: avoid;
            border: 1px solid #ddd;
            border-radius: 4px;
        }
        
        blockquote {
            margin: 1em 2em;
            padding-left: 1em;
            border-left: 3px solid #ddd;
            font-style: italic;
            color: #666;
        }
        
        ul, ol {
            padding-left: 2em;
            margin-bottom: 1em;
        }
        
        li {
            margin-bottom: 0.3em;
        }
        
        a {
            color: #0066cc;
            text-decoration: underline;
        }
        
        .page-break {
            page-break-before: always;
        }
        </style>
        ".
Section PDFConverter.
Context {UD : UnicodeData} {RT : PyRuntime}.

Record t := mk { base_url : option str }.

(** [PDFConverter(base_url)] *)
Definition __init__ (base_url : option str) : t := mk base_url.

(** ** [_sanitize_css_for_pdf] *)

(** [v = re.sub(p, repl, v, flags=fl)] on the local variable that is
    the state: a failing call leaves the variable as it was. *)
Definition assign_sub (fl : flags) (p : pattern) (repl : template)
  : M str unit :=
  v <- get ;; r <- pure (re_sub fl p repl v) ;; put r.

(** The loop over [css_attributes]. *)
Definition remove_css_attributes : M str unit :=
  for_each css_attributes
    (fun attr => assign_sub IGNORECASE (attr_pattern attr) []).

(** The body of the outer [try], on the variable [html_content]. *)
Definition sanitize_try : M str str :=
  assign_sub DOTALL_IGNORECASE style_pattern [] ;;;
  assign_sub IGNORECASE inline_style_pattern [] ;;;
  assign_sub IGNORECASE link_css_pattern [] ;;;
  assign_sub IGNORECASE class_pattern [] ;;;
  remove_css_attributes ;;;
  assign_sub DOTALL_IGNORECASE script_pattern [] ;;;
  assign_sub NOFLAG spaces_pattern [TText (U " ")] ;;;
  assign_sub NOFLAG between_tags_pattern [TText (U "><")] ;;;
  assign_sub NOFLAG after_lt_pattern [TText (U "<")] ;;;
  assign_sub NOFLAG before_gt_pattern [TText (U ">")] ;;;
  html_content <- get ;;
  ret (strip html_content).

(** The body of the inner [try], on the variable [clean_content]. *)
Definition sanitize_fallback : M str str :=
  assign_sub NOFLAG open_tag_pattern [TText (U "<"); TGroup1; TText (U ">")] ;;;
  clean_content <- get ;;
  all_tags <- pure (re_findall NOFLAG any_tag_pattern clean_content) ;;
  for_each (set_iter all_tags)
    (fun tag =>
       if negb (str_in (lower tag) basic_tags)
       then assign_sub IGNORECASE (tag_pattern tag) []
       else ret tt) ;;;
  clean_content <- get ;;
  ret clean_content.

Definition _sanitize_css_for_pdf (self : t) (html_content : str)
  : outcome str :=
  fst (try_except_Exception sanitize_try
         (fun e =>
            (* clean_content = html_content *)
            try_except_all sanitize_fallback (ret placeholder))
         html_content).

(** ** [_enhance_html_for_pdf] *)

Definition _enhance_html_for_pdf (self : t) (html_content : str)
  : outcome str :=
  match _sanitize_css_for_pdf self html_content with
  | Raise e => Raise e
  | Return sanitized_html =>
      Return
        (if contains (U "<head>") (lower sanitized_html) then
           let head_pos :=
             (find (U "<head>") (lower sanitized_html)
              + Z.of_nat (length (U "<head>")))%Z in
           slice_to sanitized_html head_pos ++ pdf_css
           ++ slice_from sanitized_html head_pos
         else if contains (U "<html>") (lower sanitized_html) then
           let html_pos :=
             (find (U "<html>") (lower sanitized_html)
              + Z.of_nat (length (U "<html>")))%Z in
           slice_to sanitized_html html_pos ++ U "<head>" ++ pdf_css
           ++ U "</head>" ++ slice_from sanitized_html html_pos
         else
           U "<html><head>" ++ pdf_css ++ U "</head><body>"
           ++ sanitized_html ++ U "</body></html>")
  end.

(** ** [convert_html_to_pdf] *)

Variable E : Env.

(** The body of the [try]. *)
Definition convert_try (self : t)
    (html_file_path pdf_file_path : Path) : M World bool :=
  Path_mkdir E (parent pdf_file_path) ;;;
  html_content <- read_text E html_file_path ;;
  enhanced_html <- pure (_enhance_html_for_pdf self html_content) ;;
  pisa_status <- CreatePDF E enhanced_html ;;
  if (err pisa_status =? 0)%nat then
    open_wb E pdf_file_path ;;;
    file_write E pdf_file_path (dest pisa_status) ;;;
    ret true
  else
    ret false.

Definition convert_html_to_pdf (self : t)
    (html_file_path pdf_file_path : Path) : M World bool :=
  try_except_Exception
    (convert_try self html_file_path pdf_file_path)
    (fun e => ret false).

(** ** [get_pdf_path] *)

Definition get_pdf_path (self : t)
    (html_file_path output_base_path relative_path : Path) : Path :=
  let pdf_filename := stem html_file_path ++ U ".pdf" in
  let pdf_relative_dir := parent relative_path in
  let pdf_path :=
    truediv_str (output_base_path // pdf_relative_dir) pdf_filename in
  pdf_path.
End PDFConverter.
End PDFConverter.

(* ===================================================================== *)
(** * html_to_pdf_converter.py *)
(* ===================================================================== *)

Module HTMLToPDFConverter.
Section HTMLToPDFConverter.
Context {UD : UnicodeData} {RT : PyRuntime}.
Variable E : Env.

(** The attributes of the converter object. *)
Record t := mk {
  base_path : Path;
  output_dir : Path;
  html_finder : HTMLFileFinder.t;
  pdf_converter : PDFConverter.t;
  total_files : nat;
  successful_conversions : nat;
  failed_conversions : nat
}.

(** The methods run on the object and the world. *)
Record state := mkState { self : t; world : World }.

Definition in_world {A} (m : M World A) : M state A :=
  fun s =>
    match m (world s) with
    | (r, w') => (r, mkState (self s) w')
    end.

Definition update_self (f : t -> t) : M state unit :=
  fun s => (Return tt, mkState (f (self s)) (world s)).

Definition set_total_files (n : nat) (c : t) : t :=
  mk (base_path c) (output_dir c) (html_finder c) (pdf_converter c)
     n (successful_conversions c) (failed_conversions c).

Definition incr_successful (c : t) : t :=
  mk (base_path c) (output_dir c) (html_finder c) (pdf_converter c)
     (total_files c) (successful_conversions c + 1) (failed_conversions c).

Definition incr_failed (c : t) : t :=
  mk (base_path c) (output_dir c) (html_finder c) (pdf_converter c)
     (total_files c) (successful_conversions c) (failed_conversions c + 1).

(** [if s] for an optional string: [None] and [''] are false. *)
Definition truthy (s : option str) : option str :=
  match s with
  | Some [] => None
  | _ => s
  end.

(** [HTMLToPDFConverter(base_path, output_dir, base_url)] *)
Definition __init__ (base_path : str) (output_dir base_url : option str)
  : M World t :=
  let self_base_path := of_str base_path in
  let self_output_dir :=
    match truthy output_dir with
    | Some d => of_str d
    | None => Config.get_output_dir base_path
    end in
  finder <- HTMLFileFinder.__init__ base_path ;;
  ret (mk self_base_path self_output_dir finder
          (PDFConverter.__init__ base_url) 0 0 0).

Definition _convert_single_file (html_file : Path) : M state unit :=
  try_except_Exception
    (s <- get ;;
     relative_path <-
       HTMLFileFinder.get_relative_path (html_finder (self s)) html_file ;;
     let pdf_path :=
       PDFConverter.get_pdf_path (pdf_converter (self s)) html_file
         (output_dir (self s)) relative_path in
     ok <- in_world
             (PDFConverter.convert_html_to_pdf E (pdf_converter (self s))
                html_file pdf_path) ;;
     if ok : bool then update_self incr_successful
     else update_self incr_failed)
    (fun e => update_self incr_failed).

(** [_print_summary] only prints; it changes neither the object nor
    the file system. *)
Definition _print_summary : M state unit := ret tt.

(** [convert_all].  The discovered files are what [get_html_files_list]
    yields on a tree whose entries can all be examined (see [fs_key]);
    the logging calls leave no trace. *)
Definition convert_all : M state (nat * nat) :=
  s <- get ;;
  let html_files :=
    HTMLFileFinder.get_html_files_list (html_finder (self s)) (world s) in
  update_self (set_total_files (length html_files)) ;;;
  s <- get ;;
  if (total_files (self s) =? 0)%nat then ret (0, 0)
  else
    for_each html_files _convert_single_file ;;;
    _print_summary ;;;
    s <- get ;;
    ret (successful_conversions (self s), failed_conversions (self s)).
End HTMLToPDFConverter.
End HTMLToPDFConverter.

(* ===================================================================== *)
(** * web_app.py: the statistics of [convert_files] *)
(* ===================================================================== *)

Module WebApp.
Section WebApp.
Context {UD : UnicodeData} {RT : PyRuntime}.
Variable E : Env.

(** The entries of [html_files] and of [conversions]. *)
Record file_info := mkInfo { absolute_path : str; relative_path : str }.

Record conversion_result := mkResult {
  html_file : file_info;
  pdf_path : option str;
  success : bool
}.

(** The loop of [convert_files] over the scanned files. *)
Fixpoint convert_loop (pdf_converter : PDFConverter.t) (output_dir : Path)
    (html_files : list file_info) : M World (list conversion_result) :=
  match html_files with
  | [] => ret []
  | info :: rest =>
      let html_file_path := of_str (absolute_path info) in
      let relative_path := of_str (relative_path info) in
      let pdf_path :=
        PDFConverter.get_pdf_path pdf_converter html_file_path output_dir
          relative_path in
      success <- PDFConverter.convert_html_to_pdf E pdf_converter
                   html_file_path pdf_path ;;
      let conversion_result :=
        mkResult info
          (if success : bool then Some (to_str pdf_path) else None)
          success in
      conversions <- convert_loop pdf_converter output_dir rest ;;
      ret (conversion_result :: conversions)
  end.

(** [successful = sum(1 for c in conversions if c['success'])] and
    [failed = len(conversions) - successful], as Python integers. *)
Definition successful (conversions : list conversion_result) : Z :=
  Z.of_nat (length (filter success conversions)).

Definition failed (conversions : list conversion_result) : Z :=
  (Z.of_nat (length conversions) - successful conversions)%Z.

Definition total (conversions : list conversion_result) : Z :=
  Z.of_nat (length conversions).
End WebApp.
End WebApp.

(* ===================================================================== *)
(** * Notions used in the statements *)
(* ===================================================================== *)

(** A table that hands back every code point it is asked about.  The
    concrete runs below are on inputs whose treatment is fixed by the
    definitions above, whatever the table. *)
Definition identity_table : UnicodeData :=
  {| ud_lower c := [c];
     ud_ignorecase p x := (p =? x)%N;
     ud_isalnum _ := false |}.

(** The file name of [p] with its extension (its suffix) replaced. *)
Definition with_extension (p : Path) (ext : str) : str :=
  firstn (length (name p) - length (suffix p)) (name p) ++ ext.

(** [rel] leads from the directory [d] to a regular file beneath it. *)
Definition regular_file_beneath (d : node) (rel : list str) : Prop :=
  rel <> [] /\ exists data, lookup d rel = Some (File data).

(** The extension of the path, lowercased, is [.html] or [.htm]. *)
Definition html_extension {UD : UnicodeData} (p : Path) : Prop :=
  lower (suffix p) = U ".html" \/ lower (suffix p) = U ".htm".

(** ** What a computation can raise *)

(** The computation raises instances of [Exception] only. *)
Definition raises_Exception_only {S A} (m : M S A) : Prop :=
  forall s e s', m s = (Raise e, s') -> is_Exception e = true.

(** The computation lets no instance of [Exception] out. *)
Definition lets_no_Exception_out {S A} (m : M S A) : Prop :=
  forall s e s', m s = (Raise e, s') -> is_Exception e = false.

(** ** What a pattern needs and a string lacks *)

(** The item consumes at least one character of class [c]. *)
Definition needs (c : re.cls) (i : re.item) : Prop :=
  i = re.Atom re.One c \/ i = re.Atom re.Plus c
  \/ i = re.Group re.One c \/ i = re.Group re.Plus c.

(** No character of the string is of class [c]. *)
Definition lacks {UD : UnicodeData} (fl : re.flags) (c : re.cls) (s : str)
  : Prop :=
  forall x, In x s -> re.cls_match fl c x = false.

(** ** Proof steps *)

(** Evaluate the left-hand side of an equation and compare. *)
Ltac run :=
  match goal with
  | |- ?l = _ =>
      let v := eval vm_compute in l in
      transitivity v; [vm_compute; reflexivity | reflexivity]
  end.

(** The pattern has the item [i], which needs its class. *)
Ltac needs_item i :=
  apply Exists_exists; exists i; split;
  [ cbn; repeat (first [left; reflexivity | right])
  | first [ left; reflexivity | right; left; reflexivity ] ].

(** ** A small site for the concrete runs

    [/site] holds a readable [index.html], a [broken.htm] whose bytes are
    not UTF-8, a text file, a file named [.html], and [docs/page.HTML].
    The surroundings never fail on their own and the rendering engine
    accepts everything. *)
Definition site_tree : node :=
  Dir [ (U "site",
         Dir [ (U "index.html", File (U "<p>hello</p>"));
               (U "broken.htm", File [255%N; 254%N]);
               (U "notes.txt", File (U "notes"));
               (U ".html", File (U "<p>hidden</p>"));
               (U "docs", Dir [ (U "page.HTML", File (U "<h1>page</h1>")) ]) ]) ].

Definition site_world : World := mkWorld site_tree [] 0.

Definition site_env : Env :=
  {| pisa_CreatePDF _ := Return (mkStatus 0 (U "%PDF"));
     fault_at _ := None;
     decode_utf8 b := if forallb is_ascii b then Some b else None;
     read_special _ := [];
     short_write _ := 0 |}.

Definition site_finder : HTMLFileFinder.t :=
  HTMLFileFinder.mk (of_str (U "/site")).

Definition site_dir : node :=
  match lookup site_tree [U "site"] with Some d => d | None => Special end.

(** ** Runtimes whose [re] calls fail

    [no_re] fails on every call; [no_dotall] fails on the calls with the
    flag [re.DOTALL], the first of which is the first step of the primary
    pass, and behaves as [CPython] on the others. *)
Definition raised {A} (e0 e : exn) (He0 : is_Exception e0 = true)
    (H : @Raise A e0 = Raise e) : is_Exception e = true :=
  match H in (_ = o)
        return (match o with Return _ => True | Raise e' => is_Exception e' = true end)
  with eq_refl => He0 end.

Definition no_re : PyRuntime :=
  {| re_sub _ _ _ _ := Raise re_error;
     re_findall _ _ _ := Raise re_error;
     set_iter l := l;
     re_sub_raises _ _ _ _ e := @raised _ re_error e eq_refl;
     re_findall_raises _ _ _ e := @raised _ re_error e eq_refl |}.

Definition no_dotall_sub {UD : UnicodeData} (fl : re.flags) (p : re.pattern)
    (r : re.template) (s : str) : outcome str :=
  if re.dotall fl then Raise RecursionError else Return (re.sub fl p r s).

Definition no_dotall_sub_raises {UD : UnicodeData} fl p r s e :
  no_dotall_sub fl p r s = Raise e -> is_Exception e = true :=
  match re.dotall fl as b
        return ((if b then Raise RecursionError else Return (re.sub fl p r s))
                = Raise e -> is_Exception e = true)
  with
  | true => @raised _ RecursionError e eq_refl
  | false => @returned _ _ e
  end.

Definition no_dotall {UD : UnicodeData} : PyRuntime :=
  {| re_sub := no_dotall_sub;
     re_findall fl p s := Return (re.findall fl p s);
     set_iter l := nodup (list_eq_dec N.eq_dec) l;
     re_sub_raises := no_dotall_sub_raises;
     re_findall_raises fl p s e := @returned _ _ e |}.

(** Surroundings in which the user interrupts the second system call. *)
Definition interrupted_env : Env :=
  {| pisa_CreatePDF _ := Return (mkStatus 0 (U "%PDF"));
     fault_at n := if (n =? 1)%nat then Some KeyboardInterrupt else None;
     decode_utf8 b := Some b;
     read_special _ := [];
     short_write _ := 0 |}.

(** Surroundings in which the write of the PDF, the fifth system call
    of a conversion, fails after two bytes. *)
Definition failing_write_env : Env :=
  {| pisa_CreatePDF _ := Return (mkStatus 0 (U "%PDF"));
     fault_at n := if (n =? 4)%nat then Some OSError else None;
     decode_utf8 b := Some b;
     read_special _ := [];
     short_write _ := 2 |}.

(** U+0130, capital I with a dot above. *)
Definition capital_I_dot : char := 304%N.

(** ** The injection rule, in the words of the specification *)

(** The first place where [tag] stands in [s], case ignored: the text
    before it, the tag as it is written in [s], and the text after it. *)
Fixpoint split_at_tag {UD : UnicodeData} (tag s : str)
  : option (str * str * str) :=
  if str_eqb (lower (firstn (length tag) s)) tag
  then Some ([], firstn (length tag) s, skipn (length tag) s)
  else match s with
       | [] => None
       | c :: s' =>
           match split_at_tag tag s' with
           | Some (pre, t, post) => Some (c :: pre, t, post)
           | None => None
           end
       end.

(** Insert the stylesheet immediately after the opening [<head>] tag if
    there is one; else a [<head>] with the stylesheet immediately after the
    opening [<html>] tag if there is one; else wrap the whole document. *)
Definition injection_rule {UD : UnicodeData} (sanitized_html : str) : str :=
  match split_at_tag (U "<head>") sanitized_html with
  | Some (pre, tag, post) => pre ++ tag ++ PDFConverter.pdf_css ++ post
  | None =>
      match split_at_tag (U "<html>") sanitized_html with
      | Some (pre, tag, post) =>
          pre ++ tag ++ U "<head>" ++ PDFConverter.pdf_css ++ U "</head>"
          ++ post
      | None =>
          U "<html><head>" ++ PDFConverter.pdf_css ++ U "</head><body>"
          ++ sanitized_html ++ U "</body></html>"
      end
  end.

(** Lowercasing keeps the length of every character of the string.
    (It does not for U+0130.) *)
Definition lower_keeps_length {UD : UnicodeData} (s : str) : Prop :=
  Forall (fun c => length (lower_char c) = 1) s.

(** ** Markup in a string *)

(** What follows the first occurrence of [sub] in [s]. *)
Fixpoint after (sub s : str) : option str :=
  if starts_with sub s then Some (skipn (length sub) s)
  else match s with
       | [] => None
       | _ :: s' => after sub s'
       end.

(** The string contains an opening tag [<name>] with the closing tag
    [</name>] somewhere behind it. *)
Definition has_block (name : string) (s : str) : bool :=
  match after (U "<" ++ U name ++ U ">") s with
  | Some rest => contains (U "</" ++ U name ++ U ">") rest
  | None => false
  end.

(** The string contains a style block with a script block behind it. *)
Definition style_then_script (s : str) : bool :=
  match after (U "<style>") s with
  | Some r1 =>
      match after (U "</style>") r1 with
      | Some r2 => has_block "script" r2
      | None => false
      end
  | None => false
  end.

(** Text without markup: none of the characters [<], [>] and the two
    quote characters. *)
Definition plain_text (t : str) : Prop :=
  forall c, In c t ->
    c <> PDFConverter.lt_sign /\ c <> PDFConverter.gt_sign
    /\ c <> dquote /\ c <> squote.

(** The body of a style block, as far as the statement below goes: no [<]. *)
Definition style_body (t : str) : Prop :=
  forall c, In c t -> c <> PDFConverter.lt_sign.

(** The body of a script block: no [<] and no quote character. *)
Definition script_body (t : str) : Prop :=
  forall c, In c t ->
    c <> PDFConverter.lt_sign /\ c <> dquote /\ c <> squote.

(** Step 7 and step 8 of the sanitizer on their own: every run of
    whitespace becomes one space, and the ends are trimmed. *)
Definition normalize_whitespace {UD : UnicodeData} (t : str) : str :=
  strip (re.sub re.NOFLAG PDFConverter.spaces_pattern [re.TText (U " ")] t).

(* ===================================================================== *)
(** * html_to_pdf_converter.py: the command line *)
(* ===================================================================== *)

Module Main.
Section Main.
Context {UD : UnicodeData} {RT : PyRuntime}.
Variable E : Env.

(** [click.Path(exists=True, file_okay=False, dir_okay=True)]: the
    argument must exist and must not be a regular file. *)
Definition click_accepts (w : World) (base_path : str) : bool :=
  match stat w (of_str base_path) with
  | None => false
  | Some (File _) => false
  | Some _ => true
  end.

(** [converter.convert_all()], on the converter object [converter]. *)
Definition run_convert_all (converter : HTMLToPDFConverter.t)
  : M World (nat * nat) :=
  fun w =>
    match HTMLToPDFConverter.convert_all E
            (HTMLToPDFConverter.mkState converter w) with
    | (r, s') => (r, HTMLToPDFConverter.world s')
    end.

(** The body of the [try] of [main].  [setup_logging] and the [print]
    calls leave no trace in the model, and discovery is the reading of a
    tree whose entries can all be examined (see [fs_key]), in the dry run
    as in [convert_all]; [sys.exit(1)] raises [SystemExit]. *)
Definition main_try (base_path : str) (output base_url : option str)
    (dry_run : bool) : M World unit :=
  if dry_run then
    finder <- HTMLFileFinder.__init__ base_path ;;
    w <- get ;;
    let html_files := HTMLFileFinder.get_html_files_list finder w in
    for_each html_files
      (fun html_file =>
         relative_path <- HTMLFileFinder.get_relative_path finder html_file ;;
         ret tt) ;;;
    ret tt
  else
    converter <- HTMLToPDFConverter.__init__ base_path output base_url ;;
    r <- run_convert_all converter ;;
    if (0 <? snd r)%nat then raise SystemExit else ret tt.

(** [except KeyboardInterrupt: sys.exit(1)] and
    [except Exception: sys.exit(1)] *)
Definition main_body (base_path : str) (output base_url : option str)
    (dry_run : bool) : M World unit :=
  fun w =>
    match main_try base_path output base_url dry_run w with
    | (Return u, w') => (Return u, w')
    | (Raise e, w') =>
        match e with
        | KeyboardInterrupt => (Raise SystemExit, w')
        | _ => if is_Exception e then (Raise SystemExit, w') else (Raise e, w')
        end
    end.

(** The exit status of the process: 2 when [click] refuses the argument,
    0 when [main] returns, 1 when it ends in [sys.exit(1)]. *)
Definition main (base_path : str) (output base_url : option str)
    (dry_run : bool) (w : World) : nat * World :=
  if negb (click_accepts w base_path) then (2, w)
  else
    match main_body base_path output base_url dry_run w with
    | (Return _, w') => (0, w')
    | (Raise _, w') => (1, w')
    end.
End Main.
End Main.

(* ===================================================================== *)
(** * web_app.py: the upload filter *)
(* ===================================================================== *)

(** [s.endswith(suffix)] *)
Definition endswith (s suffix : str) : bool :=
  starts_with (rev suffix) (rev s).

Module Upload.
Section Upload.
Context {UD : UnicodeData}.

(** [file.filename.lower().endswith(('.html', '.htm'))] *)
Definition accepts (filename : str) : bool :=
  endswith (lower filename) (U ".html") || endswith (lower filename) (U ".htm").
End Upload.
End Upload.

(* ===================================================================== *)
(** * More notions for the statements *)
(* ===================================================================== *)

(** No directory of the tree has two entries of the same name. *)
Fixpoint distinct_names (n : node) : Prop :=
  match n with
  | Dir es =>
      NoDup (map fst es)
      /\ (fix all (es : list (str * node)) : Prop :=
            match es with
            | [] => True
            | (_, c) :: es' => distinct_names c /\ all es'
            end) es
  | _ => True
  end.

(** No two whitespace characters stand next to each other. *)
Fixpoint no_adjacent_spaces (s : str) : Prop :=
  match s with
  | a :: s' =>
      match s' with
      | b :: _ => isspace a = false \/ isspace b = false
      | [] => True
      end /\ no_adjacent_spaces s'
  | [] => True
  end.

(** The string does not begin with a whitespace character. *)
Definition no_leading_space (s : str) : Prop :=
  match s with
  | c :: _ => isspace c = false
  | [] => True
  end.

(** Normalised whitespace: the only whitespace character is the space
    U+0020, never two in a row, none at either end. *)
Definition whitespace_normal (s : str) : Prop :=
  (forall c, In c s -> isspace c = true -> c = 32%N)
  /\ no_adjacent_spaces s
  /\ no_leading_space s
  /\ no_leading_space (rev s).

(** Every match of the pattern consumes a character. *)
Definition consumes (p : re.pattern) : Prop :=
  Exists (fun i => exists c, needs c i) p.

(** What the read of the source yields in the tree [t]: the bytes of a
    regular file, or what the surroundings give for a special file. *)
Definition source_bytes_spec (E : Env) (t : node) (key : list str)
    (data : bytes) : Prop :=
  lookup t key = Some (File data)
  \/ (lookup t key = Some Special /\ data = read_special E key).

(** The statements of [convert_html_to_pdf] up to the render: the
    destination directory, the read, the enhancement, [pisa.CreatePDF]. *)
Definition convert_until_render {UD : UnicodeData} {RT : PyRuntime}
    (E : Env) (self : PDFConverter.t) (html_file_path pdf_file_path : Path)
  : M World pisa_status :=
  Path_mkdir E (parent pdf_file_path) ;;;
  html_content <- read_text E html_file_path ;;
  enhanced_html <- pure (PDFConverter._enhance_html_for_pdf self html_content) ;;
  CreatePDF E enhanced_html.

(** The render did not succeed: a step up to it raised, or the engine
    reported errors. *)
Definition no_successful_render (o : outcome pisa_status) : Prop :=
  match o with
  | Return pisa_status => err pisa_status <> 0
  | Raise _ => True
  end.

(** A directory without HTML files, and a world that holds it. *)
Definition bare_world : World :=
  mkWorld (Dir [ (U "empty", Dir [ (U "notes.txt", File (U "notes")) ]) ]) [] 0.



(* ===================================================================== *)
(** * Strings and paths *)
(* ===================================================================== *)

Lemma str_eqb_eq a b : str_eqb a b = true <-> a = b.
Proof.
  unfold str_eqb. destruct (list_eq_dec N.eq_dec a b); split; congruence.
Qed.

Lemma str_eqb_refl a : str_eqb a a = true.
Proof. now apply str_eqb_eq. Qed.

Lemma str_eqb_neq a b : str_eqb a b = false <-> a <> b.
Proof.
  unfold str_eqb. destruct (list_eq_dec N.eq_dec a b); split; congruence.
Qed.

Lemma str_in_In x l : str_in x l = true <-> In x l.
Proof.
  unfold str_in. rewrite existsb_exists. split.
  - intros (y & Hy & E). apply str_eqb_eq in E. now subst.
  - intros H. exists x. split; [assumption | now apply str_eqb_eq].
Qed.

Section PathFacts.
Context {UD : UnicodeData}.

Lemma split_on_no_sep c s : ~ In c s -> split_on c s = [s].
Proof.
  induction s as [|x s IH]; intros H; [reflexivity|].
  simpl. rewrite IH by (intros K; apply H; now right).
  destruct (N.eqb_spec x c) as [->|_]; [|reflexivity].
  exfalso. apply H. now left.
Qed.

Lemma parse_root_relative s :
  ~ In slash s -> parse_root s = [].
Proof.
  intros H. destruct s as [|a s]; [reflexivity|].
  assert (Ha : (a =? slash)%N = false).
  { apply N.eqb_neq. intros ->. apply H. now left. }
  unfold parse_root. destruct s as [|b [|c s]]; now rewrite Ha.
Qed.

(** A file name parses to the path made of this one name. *)
Lemma of_str_name s :
  ~ In slash s -> s <> [] -> s <> [dot] -> of_str s = mkPath [] [s].
Proof.
  intros Hs Hne Hdot. unfold of_str.
  rewrite parse_root_relative, split_on_no_sep by assumption.
  simpl. apply str_eqb_neq in Hne, Hdot. now rewrite Hne, Hdot.
Qed.

Lemma rfind_char_app c a b :
  rfind_char c (a ++ b) =
  match rfind_char c b with
  | Some i => Some (length a + i)
  | None => rfind_char c a
  end.
Proof.
  induction a as [|x a IH]; simpl.
  - now destruct (rfind_char c b).
  - rewrite IH. now destruct (rfind_char c b).
Qed.

Lemma suffix_index_bounds nm i :
  suffix_index nm = Some i -> 0 < i /\ i < length nm - 1.
Proof.
  unfold suffix_index. destruct (rfind_char dot nm) as [j|]; [|discriminate].
  destruct (0 <? j) eqn:E1; [|discriminate].
  destruct (j <? length nm - 1) eqn:E2; [|discriminate].
  simpl. intros [= <-].
  apply Nat.ltb_lt in E1. apply Nat.ltb_lt in E2. now split.
Qed.

(** The stem is the name without its suffix. *)
Lemma stem_suffix p : stem p ++ suffix p = name p.
Proof.
  unfold stem, suffix. destruct (suffix_index (name p)).
  - apply firstn_skipn.
  - apply app_nil_r.
Qed.

Lemma stem_with_extension p ext : stem p ++ ext = with_extension p ext.
Proof.
  unfold with_extension. f_equal.
  unfold stem, suffix. destruct (suffix_index (name p)) as [i|] eqn:E.
  - apply suffix_index_bounds in E. rewrite length_skipn.
    f_equal. lia.
  - simpl. rewrite Nat.sub_0_r. symmetry. apply firstn_all.
Qed.

Lemma stem_nonempty p : name p <> [] -> stem p <> [].
Proof.
  intros H. unfold stem. destruct (suffix_index (name p)) as [i|] eqn:E.
  - apply suffix_index_bounds in E. intros K.
    apply (f_equal (@length _)) in K. rewrite length_firstn in K.
    simpl in K. lia.
  - assumption.
Qed.

Lemma stem_incl p x : In x (stem p) -> In x (name p).
Proof.
  rewrite <- (stem_suffix p). intros H. apply in_or_app. now left.
Qed.

(** A name that ends in [.pdf] after a non-empty stem has the suffix
    [.pdf]. *)
Lemma suffix_pdf r ns s :
  s <> [] -> suffix (mkPath r (ns ++ [s ++ U ".pdf"])) = U ".pdf".
Proof.
  intros Hs. unfold suffix, name. simpl names. rewrite last_last.
  unfold suffix_index. rewrite rfind_char_app.
  change (rfind_char dot (U ".pdf")) with (Some 0).
  rewrite length_app. change (length (U ".pdf")) with 4.
  assert (0 < length s) by (destruct s; [congruence | simpl; lia]).
  replace (0 <? length s + 0) with true by (symmetry; apply Nat.ltb_lt; lia).
  replace (length s + 0 <? length s + 4 - 1) with true
    by (symmetry; apply Nat.ltb_lt; lia).
  simpl. rewrite Nat.add_0_r.
  rewrite skipn_app, skipn_all, Nat.sub_diag. reflexivity.
Qed.

Lemma strip_prefix_app pre l : strip_prefix pre (pre ++ l) = Some l.
Proof.
  induction pre as [|a pre IH]; simpl; [reflexivity|].
  now rewrite str_eqb_refl.
Qed.
End PathFacts.

(* ===================================================================== *)
(** * The PDF path mapper *)
(* ===================================================================== *)

Section PathMapper.
Context {UD : UnicodeData} {RT : PyRuntime}.

Lemma parent_names p : names (parent p) = removelast (names p).
Proof. destruct p as [r [|x ns]]; reflexivity. Qed.

Lemma parent_absolute p : is_absolute (parent p) = is_absolute p.
Proof. destruct p as [r [|x ns]]; reflexivity. Qed.

(** C5.  [get_pdf_path] is the output root, joined with the parent of
    the relative path, joined with the source file name with its
    extension replaced by [.pdf].  For a relative [relative_path] and a
    source with a proper file name this is the output root, followed by
    the directories of the relative path, followed by that file name;
    and whatever the case of the source extension, the extension of the
    result is the lowercase [.pdf]. *)
Theorem get_pdf_path_mirrors self html_file_path output_base_path relative_path :
  PDFConverter.get_pdf_path self html_file_path output_base_path relative_path
  = truediv_str (output_base_path // parent relative_path)
                (with_extension html_file_path (U ".pdf"))
  /\ (is_absolute relative_path = false ->
      name html_file_path <> [] ->
      ~ In slash (name html_file_path) ->
      PDFConverter.get_pdf_path self html_file_path output_base_path
        relative_path
      = mkPath (root output_base_path)
               (names output_base_path ++ removelast (names relative_path)
                ++ [with_extension html_file_path (U ".pdf")])
      /\ suffix (PDFConverter.get_pdf_path self html_file_path
                   output_base_path relative_path) = U ".pdf").
Proof.
  split.
  { unfold PDFConverter.get_pdf_path. now rewrite stem_with_extension. }
  intros Hrel Hne Hslash.
  assert (Hname : of_str (stem html_file_path ++ U ".pdf")
                  = mkPath [] [stem html_file_path ++ U ".pdf"]).
  { apply of_str_name.
    - intros K. apply in_app_or in K. destruct K as [K|K].
      + apply Hslash. now apply stem_incl.
      + simpl in K. unfold slash in K.
        repeat (destruct K as [K|K]; [discriminate|]). exact K.
    - intros K. apply app_eq_nil in K. destruct K. discriminate.
    - intros K. apply (f_equal (@length _)) in K.
      rewrite length_app in K. simpl in K. lia. }
  assert (Hpath :
    PDFConverter.get_pdf_path self html_file_path output_base_path relative_path
    = mkPath (root output_base_path)
             (names output_base_path ++ removelast (names relative_path)
              ++ [stem html_file_path ++ U ".pdf"])).
  { unfold PDFConverter.get_pdf_path, truediv_str. rewrite Hname.
    unfold truediv at 1. simpl is_absolute.
    unfold truediv. rewrite parent_absolute, Hrel. simpl.
    now rewrite parent_names, <- app_assoc. }
  split.
  - rewrite Hpath. now rewrite stem_with_extension.
  - rewrite Hpath, app_assoc. apply suffix_pdf. now apply stem_nonempty.
Qed.
End PathMapper.

(* ===================================================================== *)
(** * File discovery *)
(* ===================================================================== *)

Section Discovery.
Context {UD : UnicodeData}.

Lemma lookup_entry_In x es c :
  lookup_entry x es = Some c -> In (x, c) es.
Proof.
  induction es as [|[y m] es IH]; simpl; [discriminate|].
  destruct (str_eqb x y) eqn:E.
  - apply str_eqb_eq in E. intros [= ->]. left. now subst.
  - intros H. right. now apply IH.
Qed.

Lemma walk_Dir_cons x c es :
  walk (Dir ((x, c) :: es))
  = ([x] :: map (cons x) (walk c)) ++ walk (Dir es).
Proof. reflexivity. Qed.

Lemma walk_entry x c es :
  In (x, c) es ->
  In [x] (walk (Dir es))
  /\ forall q, In q (walk c) -> In (x :: q) (walk (Dir es)).
Proof.
  induction es as [|[y m] es IH]; intros H; [contradiction|].
  rewrite walk_Dir_cons. destruct H as [[= -> ->]|H].
  - split; [now left|].
    intros q Hq. right. apply in_or_app. left. now apply in_map.
  - destruct (IH H) as [H1 H2]. split.
    + right. apply in_or_app. now right.
    + intros q Hq. right. apply in_or_app. right. now apply H2.
Qed.

(** The walk enumerates only proper names of entries ... *)
Lemma walk_nonempty n q : In q (walk n) -> q <> [].
Proof.
  destruct n as [data| |es]; simpl; try contradiction.
  induction es as [|[y m] es IH]; [contradiction|].
  intros [H|H].
  - now subst.
  - apply in_app_or in H. destruct H as [H|H].
    + apply in_map_iff in H. destruct H as (q' & <- & _). discriminate.
    + now apply IH.
Qed.

(** ... and it reaches whatever a non-empty list of names leads to. *)
Lemma lookup_walk q : forall n m,
  q <> [] -> lookup n q = Some m -> In q (walk n).
Proof.
  induction q as [|x q IH]; intros n m Hne H; [congruence|].
  simpl in H. destruct n as [data| |es]; try discriminate.
  destruct (lookup_entry x es) as [c|] eqn:Ec; [|discriminate].
  apply lookup_entry_In in Ec. destruct (walk_entry _ _ _ Ec) as [H1 H2].
  destruct q as [|y q]; [exact H1|].
  apply H2. apply (IH c m); [discriminate | exact H].
Qed.

Lemma lookup_app n p q :
  lookup n (p ++ q)
  = match lookup n p with Some m => lookup m q | None => None end.
Proof.
  revert n. induction p as [|x p IH]; intros n; [reflexivity|].
  simpl. destruct n as [data| |es]; try reflexivity.
  destruct (lookup_entry x es); [apply IH | reflexivity].
Qed.

Lemma stat_beneath w base d q :
  stat w base = Some d ->
  stat w (mkPath (root base) (names base ++ q)) = lookup d q.
Proof.
  unfold stat, fs_key, is_absolute. simpl. intros H.
  destruct (root base).
  - rewrite app_assoc, lookup_app. now rewrite H.
  - rewrite lookup_app. now rewrite H.
Qed.

Lemma name_beneath r ns q :
  q <> [] -> name (mkPath r (ns ++ q)) = last q [].
Proof.
  intros H. unfold name. simpl.
  destruct (exists_last H) as (q' & y & ->).
  now rewrite app_assoc, !last_last.
Qed.

(** What [find_html_files] yields: the paths made of the base path and
    the names that lead to a regular file with an HTML suffix. *)
Lemma find_html_files_spec self w d file_path :
  stat w (HTMLFileFinder.base_path self) = Some d ->
  In file_path (HTMLFileFinder.find_html_files self w) <->
  exists q,
    file_path = mkPath (root (HTMLFileFinder.base_path self))
                       (names (HTMLFileFinder.base_path self) ++ q)
    /\ regular_file_beneath d q
    /\ Config.is_html_file file_path = true.
Proof.
  intros Hd. unfold HTMLFileFinder.find_html_files, rglob_star.
  rewrite Hd, filter_In, in_map_iff. split.
  - intros ((q & <- & Hq) & H). apply andb_prop in H. destruct H as [Hf Hh].
    exists q. split; [reflexivity|]. split; [|exact Hh].
    split; [now apply walk_nonempty with d|].
    unfold is_file in Hf. rewrite (stat_beneath _ _ _ Hd) in Hf.
    destruct (lookup d q) as [[data| |es]|]; try discriminate.
    now exists data.
  - intros (q & -> & (Hne & data & Hl) & Hh). split.
    + exists q. split; [reflexivity|]. now apply lookup_walk with (File data).
    + apply andb_true_intro. split; [|exact Hh].
      unfold is_file. now rewrite (stat_beneath _ _ _ Hd), Hl.
Qed.

Lemma init_base w base_path self w' :
  HTMLFileFinder.__init__ base_path w = (Return self, w') ->
  exists es, stat w (HTMLFileFinder.base_path self) = Some (Dir es).
Proof.
  unfold HTMLFileFinder.__init__, Path_exists, is_dir.
  destruct (stat w (of_str base_path)) as [[data| |es]|] eqn:E;
    simpl; try discriminate.
  intros [= <- _]. simpl. now exists es.
Qed.

Lemma is_html_file_extension p :
  Config.is_html_file p = true <-> html_extension p.
Proof.
  unfold Config.is_html_file, html_extension. rewrite str_in_In. simpl.
  intuition.
Qed.

Lemma suffix_beneath r ns q :
  q <> [] -> suffix (mkPath r (ns ++ q)) = suffix (mkPath [] q).
Proof.
  intros H. unfold suffix. rewrite (name_beneath r ns H).
  reflexivity.
Qed.

(** C4.  For a finder made on an existing directory, the relative paths
    of the discovered files are exactly the paths [rel], relative to the
    root, of the regular files beneath the root whose extension,
    lowercased, is [.html] or [.htm]; every discovered file has such a
    relative path ([get_relative_path] does not raise on it). *)
Theorem discovery_exact base_path w self w' d :
  HTMLFileFinder.__init__ base_path w = (Return self, w') ->
  stat w (HTMLFileFinder.base_path self) = Some d ->
  (forall rel : Path,
     In (Return rel)
        (map (fun file_path =>
                fst (HTMLFileFinder.get_relative_path self file_path tt))
             (HTMLFileFinder.find_html_files self w))
     <-> root rel = []
         /\ regular_file_beneath d (names rel)
         /\ html_extension rel)
  /\ (forall file_path,
        In file_path (HTMLFileFinder.find_html_files self w) ->
        exists rel,
          HTMLFileFinder.get_relative_path self file_path tt
          = (Return rel, tt)).
Proof.
  intros _ Hd.
  assert (Hrel : forall q,
    HTMLFileFinder.get_relative_path (S:=unit) self
      (mkPath (root (HTMLFileFinder.base_path self))
              (names (HTMLFileFinder.base_path self) ++ q)) tt
    = (Return (mkPath [] q), tt)).
  { intros q. unfold HTMLFileFinder.get_relative_path, relative_to.
    simpl. now rewrite str_eqb_refl, strip_prefix_app. }
  split.
  - intros rel. rewrite in_map_iff. split.
    + intros (fp & Hfp & Hin).
      apply (find_html_files_spec _ _ _ Hd) in Hin.
      destruct Hin as (q & -> & Hreg & Hh).
      rewrite Hrel in Hfp. simpl in Hfp. injection Hfp as <-. simpl.
      split; [reflexivity|]. split; [exact Hreg|].
      apply is_html_file_extension in Hh. unfold html_extension in *.
      destruct Hreg as [Hne _].
      now rewrite (@suffix_beneath _ _ _ Hne) in Hh.
    + intros (Hroot & Hreg & Hh). destruct rel as [r q]. simpl in *. subst r.
      exists (mkPath (root (HTMLFileFinder.base_path self))
                     (names (HTMLFileFinder.base_path self) ++ q)).
      split; [now rewrite Hrel|].
      apply (find_html_files_spec _ _ _ Hd). exists q.
      split; [reflexivity|]. split; [exact Hreg|].
      apply is_html_file_extension. unfold html_extension in *.
      destruct Hreg as [Hne _]. now rewrite (@suffix_beneath _ _ _ Hne).
  - intros fp Hin. apply (find_html_files_spec _ _ _ Hd) in Hin.
    destruct Hin as (q & -> & _). exists (mkPath [] q). apply Hrel.
Qed.

(** C10.  A path whose whole file name is [.html] or [.htm] has an
    empty suffix, is not an HTML file for [Config.is_html_file], and is
    never among the discovered files, although a name such as [a.html],
    which ends the same way, is accepted: the test is on the suffix. *)
Theorem dotfile_never_discovered self w r ns :
  suffix (mkPath r (ns ++ [U ".html"])) = []
  /\ suffix (mkPath r (ns ++ [U ".htm"])) = []
  /\ Config.is_html_file (mkPath r (ns ++ [U ".html"])) = false
  /\ Config.is_html_file (mkPath r (ns ++ [U ".htm"])) = false
  /\ Config.is_html_file (mkPath r (ns ++ [U "a.html"])) = true
  /\ forallb (fun file_path =>
                negb (str_eqb (name file_path) (U ".html"))
                && negb (str_eqb (name file_path) (U ".htm")))
             (HTMLFileFinder.find_html_files self w) = true.
Proof.
  assert (S1 : forall p, name p = U ".html" -> suffix p = []).
  { intros p H. unfold suffix. now rewrite H. }
  assert (S2 : forall p, name p = U ".htm" -> suffix p = []).
  { intros p H. unfold suffix. now rewrite H. }
  assert (N1 : forall x, name (mkPath r (ns ++ [x])) = x).
  { intros x. unfold name. simpl. apply last_last. }
  assert (F : forall p, suffix p = [] -> Config.is_html_file p = false).
  { intros p H. unfold Config.is_html_file. now rewrite H. }
  repeat split.
  - apply S1, N1.
  - apply S2, N1.
  - apply F, S1, N1.
  - apply F, S2, N1.
  - unfold Config.is_html_file, suffix. rewrite N1. reflexivity.
  - apply forallb_forall. intros fp Hin.
    unfold HTMLFileFinder.find_html_files in Hin.
    apply filter_In in Hin. destruct Hin as [_ H].
    apply andb_prop in H. destruct H as [_ H].
    apply andb_true_intro. split; apply negb_true_iff, str_eqb_neq; intros K.
    + rewrite (F fp (S1 fp K)) in H. discriminate.
    + rewrite (F fp (S2 fp K)) in H. discriminate.
Qed.
End Discovery.

(* ===================================================================== *)
(** * Exceptions: what a computation can raise *)
(* ===================================================================== *)

Section ExceptionFacts.

Lemma ret_raises {S A} (a : A) : raises_Exception_only (ret (S:=S) a).
Proof. intros s e s'. discriminate. Qed.

Lemma get_raises {S} : raises_Exception_only (get (S:=S)).
Proof. intros s e s'. discriminate. Qed.

Lemma put_raises {S} (x : S) : raises_Exception_only (put x).
Proof. intros s e s'. discriminate. Qed.

Lemma bind_raises {S A B} (m : M S A) (k : A -> M S B) :
  raises_Exception_only m ->
  (forall a, raises_Exception_only (k a)) ->
  raises_Exception_only (bind m k).
Proof.
  intros Hm Hk s e s'. unfold bind.
  destruct (m s) as [[a|e0] s0] eqn:Em.
  - apply Hk.
  - intros [= <- <-]. eapply Hm, Em.
Qed.

Lemma for_each_raises {S A} (l : list A) (body : A -> M S unit) :
  (forall a, raises_Exception_only (body a)) ->
  raises_Exception_only (for_each l body).
Proof.
  intros Hb. induction l as [|x l IH]; simpl.
  - apply ret_raises.
  - apply bind_raises; [apply Hb | intros _; exact IH].
Qed.

Lemma try_except_Exception_contains {S A}
    (body : M S A) (handler : exn -> M S A) :
  (forall e, lets_no_Exception_out (handler e)) ->
  lets_no_Exception_out (try_except_Exception body handler).
Proof.
  intros Hh s e s'. unfold try_except_Exception.
  destruct (body s) as [[a|e0] s0] eqn:Eb; [discriminate|].
  destruct (is_Exception e0) eqn:Ee.
  - apply Hh.
  - now intros [= <- <-].
Qed.
End ExceptionFacts.

(* ===================================================================== *)
(** * The sanitizer is total *)
(* ===================================================================== *)

Section SanitizerTotal.
Context {UD : UnicodeData} {RT : PyRuntime}.

Lemma assign_sub_raises fl p repl :
  raises_Exception_only (PDFConverter.assign_sub fl p repl).
Proof.
  unfold PDFConverter.assign_sub.
  apply bind_raises; [apply get_raises|]. intros v.
  apply bind_raises; [|intros r; apply put_raises].
  intros s e s'. unfold pure. intros [= H _]. eapply re_sub_raises, H.
Qed.

Lemma sanitize_try_raises :
  raises_Exception_only PDFConverter.sanitize_try.
Proof.
  unfold PDFConverter.sanitize_try, PDFConverter.remove_css_attributes.
  repeat (apply bind_raises;
          [first [ apply assign_sub_raises
                 | apply for_each_raises; intros; apply assign_sub_raises
                 | apply get_raises ]
          | intros ]).
  apply ret_raises.
Qed.

(** The three tiers of [_sanitize_css_for_pdf]. *)
Lemma sanitize_tiers self html_content :
  PDFConverter._sanitize_css_for_pdf self html_content
  = Return
      match PDFConverter.sanitize_try html_content with
      | (Return r, _) => r
      | (Raise _, content) =>
          match PDFConverter.sanitize_fallback content with
          | (Return r, _) => r
          | (Raise _, _) => PDFConverter.placeholder
          end
      end.
Proof.
  unfold PDFConverter._sanitize_css_for_pdf, try_except_Exception.
  destruct (PDFConverter.sanitize_try html_content) as [[r|e] content] eqn:Et.
  - reflexivity.
  - rewrite (sanitize_try_raises _ Et). unfold try_except_all.
    now destruct (PDFConverter.sanitize_fallback content) as [[r|e'] c'].
Qed.

(** The sanitizer is total, in three tiers.  For every runtime,
    whichever of its [re] calls fail, and for every input string,
    [_sanitize_css_for_pdf] returns a string and raises nothing: the
    result of the primary pass when that pass returns; otherwise the
    result of the secondary pass, run on the content as the primary pass
    left it; and the fixed placeholder document when the secondary pass
    raises as well. *)
Theorem sanitizer_total self html_content :
  exists result,
    PDFConverter._sanitize_css_for_pdf self html_content = Return result
    /\ match PDFConverter.sanitize_try html_content with
       | (Return r, _) => result = r
       | (Raise _, content) =>
           match PDFConverter.sanitize_fallback content with
           | (Return r, _) => result = r
           | (Raise _, _) => result = PDFConverter.placeholder
           end
       end.
Proof.
  eexists. split; [apply sanitize_tiers|].
  destruct (PDFConverter.sanitize_try html_content) as [[r|e] content];
    [reflexivity|].
  now destruct (PDFConverter.sanitize_fallback content) as [[r|e'] c'].
Qed.

(** Hence [_enhance_html_for_pdf] returns as well. *)
Lemma enhance_returns self html_content :
  exists enhanced,
    PDFConverter._enhance_html_for_pdf self html_content = Return enhanced.
Proof.
  unfold PDFConverter._enhance_html_for_pdf.
  rewrite sanitize_tiers. eauto.
Qed.
End SanitizerTotal.

(* ===================================================================== *)
(** * The orchestrator: faults stay inside the file they hit *)
(* ===================================================================== *)

Section Orchestrator.
Context {UD : UnicodeData} {RT : PyRuntime}.
Variable E : Env.

Import HTMLToPDFConverter.

(** [convert_html_to_pdf] turns every instance of [Exception] of its
    body into the result [False]. *)
Lemma convert_contains self html pdf :
  lets_no_Exception_out (PDFConverter.convert_html_to_pdf E self html pdf).
Proof.
  apply try_except_Exception_contains. intros e s e' s'. discriminate.
Qed.

Lemma fault_is_failure self html pdf w e w' :
  PDFConverter.convert_try E self html pdf w = (Raise e, w') ->
  is_Exception e = true ->
  PDFConverter.convert_html_to_pdf E self html pdf w = (Return false, w').
Proof.
  intros H He. unfold PDFConverter.convert_html_to_pdf, try_except_Exception.
  now rewrite H, He.
Qed.

(** One file: either the call returns and exactly one of the two
    counters has gone up by one, or something that is not an instance of
    [Exception] (an interruption) passes through. *)
Lemma convert_single_file_outcome html_file s :
  match _convert_single_file E html_file s with
  | (Return _, s') =>
      self s' = incr_successful (self s) \/ self s' = incr_failed (self s)
  | (Raise e, _) => is_Exception e = false
  end.
Proof.
  unfold _convert_single_file, try_except_Exception, bind, get.
  unfold HTMLFileFinder.get_relative_path.
  destruct (relative_to html_file _) as [rel|]; simpl.
  - unfold in_world.
    destruct (PDFConverter.convert_html_to_pdf E _ html_file _ (world s))
      as [[ok|e] w'] eqn:Ec.
    + destruct ok; simpl; auto.
    + pose proof (@convert_contains _ _ _ _ _ _ Ec) as He.
      simpl. rewrite He. exact He.
  - now right.
Qed.

Lemma incr_counters c c' :
  c' = incr_successful c \/ c' = incr_failed c ->
  successful_conversions c' + failed_conversions c'
  = successful_conversions c + failed_conversions c + 1
  /\ total_files c' = total_files c
  /\ html_finder c' = html_finder c.
Proof. intros [-> | ->]; simpl; repeat split; lia. Qed.

(** The loop of [convert_all]. *)
Lemma batch_outcome html_files : forall s,
  match for_each html_files (_convert_single_file E) s with
  | (Return _, s') =>
      successful_conversions (self s') + failed_conversions (self s')
      = successful_conversions (self s) + failed_conversions (self s)
        + length html_files
      /\ total_files (self s') = total_files (self s)
  | (Raise e, _) => is_Exception e = false
  end.
Proof.
  induction html_files as [|f files IH]; intros s; simpl.
  - split; [lia | reflexivity].
  - unfold bind. pose proof (convert_single_file_outcome f s) as H1.
    destruct (_convert_single_file E f s) as [[u|e] s1]; [|exact H1].
    apply incr_counters in H1. destruct H1 as (H1 & H2 & _).
    specialize (IH s1).
    destruct (for_each files (_convert_single_file E) s1) as [[u'|e] s2];
      [|exact IH].
    destruct IH as [IH1 IH2]. split; [lia | congruence].
Qed.

(** [convert_all] as a whole. *)
Lemma convert_all_outcome s :
  match convert_all E s with
  | (Return (successful, failed), s') =>
      total_files (self s')
      = length (HTMLFileFinder.get_html_files_list
                  (html_finder (self s)) (world s))
      /\ (total_files (self s') = 0 /\ successful = 0 /\ failed = 0
          /\ self s' = set_total_files 0 (self s)
          \/ successful = successful_conversions (self s')
             /\ failed = failed_conversions (self s')
             /\ successful + failed
                = successful_conversions (self s)
                  + failed_conversions (self s) + total_files (self s'))
  | (Raise e, _) => is_Exception e = false
  end.
Proof.
  unfold convert_all, bind, get, update_self, _print_summary, ret.
  simpl.
  set (files := HTMLFileFinder.get_html_files_list _ _).
  destruct (length files =? 0) eqn:E0.
  - apply Nat.eqb_eq in E0. simpl. split; [reflexivity|]. left.
    rewrite E0. auto.
  - set (s0 := mkState _ _).
    pose proof (batch_outcome files s0) as H.
    destruct (for_each files (_convert_single_file E) s0) as [[u|e] s'];
      [|exact H].
    destruct H as [H1 H2]. simpl in H1, H2.
    split; [exact H2|]. right. repeat split. rewrite H1, H2. reflexivity.
Qed.


End Orchestrator.

(** The statistics of the web front end: [failed] is defined as the rest,
    so the three numbers always partition the batch. *)
Lemma webapp_statistics_partition (conversions : list WebApp.conversion_result) :
  (WebApp.successful conversions + WebApp.failed conversions
   = WebApp.total conversions)%Z
  /\ (0 <= WebApp.failed conversions)%Z.
Proof.
  unfold WebApp.failed, WebApp.total, WebApp.successful. split; [lia|].
  pose proof (filter_length_le WebApp.success conversions). lia.
Qed.

(* ===================================================================== *)
(** * The destination directory *)
(* ===================================================================== *)

Section DestinationDirectory.
Context {UD : UnicodeData} {RT : PyRuntime}.
Variable E : Env.

Lemma lookup_entry_update x c es :
  lookup_entry x (update_entry x c es) = Some c.
Proof.
  induction es as [|[y m] es IH]; simpl.
  - now rewrite str_eqb_refl.
  - destruct (str_eqb x y) eqn:Exy; simpl; now rewrite Exy.
Qed.

(** After [mkdir(parents=True, exist_ok=True)] the path is a directory. *)
Lemma mkdir_parents_lookup p : forall n t,
  mkdir_parents n p = Return t -> exists es, lookup t p = Some (Dir es).
Proof.
  induction p as [|x p IH]; intros n t; simpl.
  - destruct n as [data| |es]; try discriminate.
    intros [= <-]. now exists es.
  - destruct n as [data| |es]; try discriminate.
    destruct (lookup_entry x es) as [c|].
    + destruct (mkdir_parents c p) as [c'|e] eqn:Ec; [|discriminate].
      intros [= <-]. rewrite lookup_entry_update. now apply IH with c.
    + destruct (mkdir_parents (Dir []) p) as [c'|e] eqn:Ec; [|discriminate].
      intros [= <-]. rewrite lookup_entry_update. now apply IH with (Dir []).
Qed.

(** [convert_html_to_pdf] is its steps up to the render followed by the
    write on a status without errors. *)
Lemma convert_try_split self html_file_path pdf_file_path w :
  PDFConverter.convert_try E self html_file_path pdf_file_path w
  = bind (convert_until_render E self html_file_path pdf_file_path)
      (fun pisa_status =>
         if (err pisa_status =? 0)%nat then
           open_wb E pdf_file_path ;;;
           file_write E pdf_file_path (dest pisa_status) ;;;
           ret true
         else ret false) w.
Proof.
  unfold PDFConverter.convert_try, convert_until_render, bind.
  destruct (Path_mkdir E (parent pdf_file_path) w) as [[u|e] w1];
    [|reflexivity].
  destruct (read_text E html_file_path w1) as [[html|e] w2]; [|reflexivity].
  destruct (pure (PDFConverter._enhance_html_for_pdf self html) w2)
    as [[enhanced|e] w3]; [|reflexivity].
  destruct (CreatePDF E enhanced w3) as [[status|e] w4]; reflexivity.
Qed.

(** Up to the render nothing but the destination directory is made. *)
Lemma until_render_world self html_file_path pdf_file_path w t o w1 :
  fault_at E (clock w) = None ->
  mkdir_parents (fs w) (fs_key w (parent pdf_file_path)) = Return t ->
  convert_until_render E self html_file_path pdf_file_path w = (o, w1) ->
  fs w1 = t /\ cwd w1 = cwd w.
Proof.
  intros Hfault Hmk.
  unfold convert_until_render, bind, Path_mkdir, read_text, CreatePDF,
    syscall, pure.
  rewrite Hfault. simpl.
  change (fs_key (mkWorld (fs w) (cwd w) (S (clock w)))
                 (parent pdf_file_path))
    with (fs_key w (parent pdf_file_path)).
  rewrite Hmk. simpl.
  destruct (fault_at E (S (clock w))) as [e1|]; [now intros [= _ <-]|].
  unfold stat at 1. simpl.
  destruct (lookup t (fs_key _ html_file_path)) as [[data| |es']|].
  3-4: now intros [= _ <-].
  - destruct (decode_utf8 E data) as [html|]; [|now intros [= _ <-]].
    destruct (PDFConverter._enhance_html_for_pdf self html) as [enhanced|e2];
      [|now intros [= _ <-]].
    simpl. destruct (fault_at E (S (S (clock w)))); now intros [= _ <-].
  - destruct (decode_utf8 E (read_special E _)) as [html|];
      [|now intros [= _ <-]].
    destruct (PDFConverter._enhance_html_for_pdf self html) as [enhanced|e2];
      [|now intros [= _ <-]].
    simpl. destruct (fault_at E (S (S (clock w)))); now intros [= _ <-].
Qed.

(** C9, as the code has it.  [convert_html_to_pdf] creates the
    destination directory first, before it reads the source.  So when
    the conversion fails before a successful render (the source cannot
    be read, the engine raises or reports errors) and the directory could
    be created, the conversion does not return [True], the directory
    exists afterwards, and its creation is the only change to the file
    system. *)
Theorem directory_created_first self html_file_path pdf_file_path w t r w' :
  fault_at E (clock w) = None ->
  mkdir_parents (fs w) (fs_key w (parent pdf_file_path)) = Return t ->
  no_successful_render
    (fst (convert_until_render E self html_file_path pdf_file_path w)) ->
  PDFConverter.convert_html_to_pdf E self html_file_path pdf_file_path w
  = (r, w') ->
  r <> Return true /\ fs w' = t /\ is_dir w' (parent pdf_file_path) = true.
Proof.
  intros Hfault Hmk Hrender Hrun.
  destruct (mkdir_parents_lookup _ _ Hmk) as (es & Hl).
  destruct (convert_until_render E self html_file_path pdf_file_path w)
    as [o w1] eqn:Euntil.
  destruct (@until_render_world _ _ _ _ _ _ _ Hfault Hmk Euntil) as [Hfs Hcwd].
  assert (Hgoal : r <> Return true /\ w' = w1).
  { revert Hrun.
    unfold PDFConverter.convert_html_to_pdf, try_except_Exception.
    rewrite convert_try_split. unfold bind at 1. rewrite Euntil.
    simpl in Hrender. destruct o as [status|e].
    - apply Nat.eqb_neq in Hrender. rewrite Hrender.
      intros [= <- <-]. split; [discriminate | reflexivity].
    - destruct (is_Exception e); intros [= <- <-];
        (split; [discriminate | reflexivity]). }
  destruct Hgoal as [Hr ->]. split; [exact Hr|]. split; [exact Hfs|].
  unfold is_dir, stat, fs_key. rewrite Hfs, Hcwd.
  unfold fs_key in Hl. now rewrite Hl.
Qed.
End DestinationDirectory.

(* ===================================================================== *)
(** * Facts about matching and substitution *)
(* ===================================================================== *)

Section RegexFacts.
Context {UD : UnicodeData}.
Import re.

Lemma flat_map_nil {A B} (f : A -> list B) l :
  (forall x, In x l -> f x = []) -> flat_map f l = [].
Proof.
  induction l as [|x l IH]; intros H; [reflexivity|]. simpl.
  rewrite (H x) by now left. apply IH. intros y Hy. apply H. now right.
Qed.

(** ** Remainders are suffixes *)

Lemma star_greedy_suffix fl c s r :
  In r (star_greedy fl c s) -> exists pre, s = pre ++ r.
Proof.
  induction s as [|x s IH]; simpl.
  - intros [<-|[]]. now exists [].
  - destruct (cls_match fl c x).
    + intros H. apply in_app_or in H. destruct H as [H|[<-|[]]].
      * destruct (IH H) as (pre & ->). now exists (x :: pre).
      * now exists [].
    + intros [<-|[]]. now exists [].
Qed.

Lemma star_lazy_suffix fl c s r :
  In r (star_lazy fl c s) -> exists pre, s = pre ++ r.
Proof.
  induction s as [|x s IH]; simpl.
  - intros [<-|[]]. now exists [].
  - intros [<-|H]; [now exists []|].
    destruct (cls_match fl c x); [|contradiction].
    destruct (IH H) as (pre & ->). now exists (x :: pre).
Qed.

Lemma atom_match_suffix fl q c s r :
  In r (atom_match fl q c s) -> exists pre, s = pre ++ r.
Proof.
  destruct q; simpl.
  - destruct s as [|x s]; [contradiction|].
    destruct (cls_match fl c x); [|contradiction].
    intros [<-|[]]. now exists [x].
  - destruct s as [|x s]; [intros [<-|[]]; now exists []|].
    destruct (cls_match fl c x).
    + intros [<-|[<-|[]]]; [now exists [x] | now exists []].
    + intros [<-|[]]. now exists [].
  - apply star_greedy_suffix.
  - apply star_lazy_suffix.
  - destruct s as [|x s]; [contradiction|].
    destruct (cls_match fl c x); [|contradiction].
    intros H. apply star_greedy_suffix in H. destruct H as (pre & ->).
    now exists (x :: pre).
Qed.

(** ** A pattern cannot match where a character it needs is missing *)

Lemma lacks_suffix fl c pre s : lacks fl c (pre ++ s) -> lacks fl c s.
Proof. intros H x Hx. apply H, in_or_app. now right. Qed.

Lemma lacks_app fl c a b : lacks fl c a -> lacks fl c b -> lacks fl c (a ++ b).
Proof.
  intros Ha Hb x Hx. apply in_app_or in Hx. destruct Hx; [now apply Ha | now apply Hb].
Qed.

Lemma atom_match_needs fl q c s :
  (q = One \/ q = Plus) -> lacks fl c s -> atom_match fl q c s = [].
Proof.
  intros Hq H. destruct s as [|x s].
  - now destruct Hq as [-> | ->].
  - assert (Hx : cls_match fl c x = false) by (apply H; now left).
    destruct Hq as [-> | ->]; simpl; now rewrite Hx.
Qed.

Lemma pm_Atom fl q c p g s :
  pattern_match fl (Atom q c :: p) g s
  = flat_map (pattern_match fl p g) (atom_match fl q c s).
Proof. reflexivity. Qed.

Lemma pm_Group fl q c p g s :
  pattern_match fl (Group q c :: p) g s
  = flat_map (fun rest =>
                pattern_match fl p
                  (Some (firstn (length s - length rest) s)) rest)
             (atom_match fl q c s).
Proof. reflexivity. Qed.

Lemma pattern_match_lacks fl c p : forall g s,
  Exists (needs c) p -> lacks fl c s -> pattern_match fl p g s = [].
Proof.
  induction p as [|i p IH]; intros g s Hex Hl.
  - inversion Hex.
  - apply Exists_cons in Hex. destruct Hex as [Hn | Hex].
    + destruct Hn as [-> | [-> | [-> | ->]]];
        rewrite ?pm_Atom, ?pm_Group, atom_match_needs by auto; reflexivity.
    + destruct i as [q c0 | q c0]; rewrite ?pm_Atom, ?pm_Group;
        apply flat_map_nil; intros r Hr;
        apply atom_match_suffix in Hr; destruct Hr as (pre & ->);
        apply IH; eauto using lacks_suffix.
Qed.

(** ** Substitution, one position at a time *)

Lemma match_at_none fl p adv s :
  pattern_match fl p None s = [] -> match_at fl p adv s = None.
Proof. unfold match_at. now intros ->. Qed.

Lemma match_at_first fl p s m ms :
  pattern_match fl p None s = m :: ms -> match_at fl p false s = Some m.
Proof. unfold match_at. now intros ->. Qed.

Lemma scan_none fl p c s :
  match_at fl p false (c :: s) = None ->
  scan fl p (c :: s) 0 = Keep c :: scan fl p s 0.
Proof. intros H. cbn [scan]. now rewrite H. Qed.

Lemma scan_none_nil fl p :
  match_at fl p false [] = None -> scan fl p [] 0 = [].
Proof. intros H. cbn [scan]. now rewrite H. Qed.

Lemma scan_some fl p c s m n :
  match_at fl p false (c :: s) = Some m ->
  length (c :: s) - length (snd m) = S n ->
  scan fl p (c :: s) 0 = hit (c :: s) m :: scan fl p s n.
Proof. intros H Hn. cbn [scan]. now rewrite H, Hn. Qed.

Lemma sub_nil fl p repl :
  pattern_match fl p None [] = [] -> sub fl p repl [] = [].
Proof.
  intros H. unfold sub.
  now rewrite scan_none_nil by now apply match_at_none.
Qed.

(** No match starts here: the character is kept. *)
Lemma sub_keep fl p repl c s :
  pattern_match fl p None (c :: s) = [] ->
  sub fl p repl (c :: s) = c :: sub fl p repl s.
Proof.
  intros H. unfold sub.
  now rewrite scan_none by now apply match_at_none.
Qed.

Lemma scan_skip fl p k : forall s,
  k <= length s -> scan fl p s k = scan fl p (skipn k s) 0.
Proof.
  induction k as [|k IH]; intros s Hk; [reflexivity|].
  destruct s as [|x s]; [simpl in Hk; lia|].
  cbn [scan skipn]. apply IH. simpl in Hk. lia.
Qed.

(** A non-empty match starts here: it is replaced and the scan goes on
    behind it. *)
Lemma sub_hit fl p repl s text g rest ms :
  pattern_match fl p None s = (g, rest) :: ms ->
  s = text ++ rest -> text <> [] ->
  sub fl p repl s = expand repl g ++ sub fl p repl rest.
Proof.
  intros Hm -> Hne. unfold sub.
  destruct text as [|x text]; [congruence|].
  rewrite <- app_comm_cons in *.
  rewrite (@scan_some _ _ _ _ _ (length text) (match_at_first _ _ _ Hm)).
  - cbn [flat_map hit fst]. f_equal.
    rewrite scan_skip by (rewrite length_app; lia).
    now rewrite skipn_app, skipn_all, Nat.sub_diag.
  - cbn [snd length]. rewrite length_app. lia.
Qed.

(** Nothing to replace where the pattern needs a character that the
    string lacks. *)
Lemma sub_lacks fl c p repl s :
  Exists (needs c) p -> lacks fl c s -> sub fl p repl s = s.
Proof.
  intros Hex. induction s as [|x s IH]; intros Hl.
  - apply sub_nil. now apply pattern_match_lacks with c.
  - rewrite sub_keep by now apply pattern_match_lacks with c.
    f_equal. apply IH. intros y Hy. apply Hl. now right.
Qed.

Lemma pattern_match_first_fails fl q c p g x s :
  (q = One \/ q = Plus) -> cls_match fl c x = false ->
  pattern_match fl (Atom q c :: p) g (x :: s) = [].
Proof. intros [-> | ->] H; simpl; now rewrite H. Qed.

(** Text in which no match can start is kept as it is. *)
Lemma sub_skip_text fl q c p repl t s :
  (q = One \/ q = Plus) -> lacks fl c t ->
  sub fl (Atom q c :: p) repl (t ++ s) = t ++ sub fl (Atom q c :: p) repl s.
Proof.
  intros Hq. induction t as [|x t IH]; intros Hl; [reflexivity|].
  simpl app. rewrite sub_keep.
  - f_equal. apply IH. intros y Hy. apply Hl. now right.
  - apply pattern_match_first_fails; [exact Hq|]. apply Hl. now left.
Qed.

(** ** Matching step by step *)

Lemma pm_one fl c p g x s :
  cls_match fl c x = true ->
  pattern_match fl (Atom One c :: p) g (x :: s) = pattern_match fl p g s.
Proof. intros H. simpl. rewrite H. simpl. apply app_nil_r. Qed.

(** The literal text [t] matches itself, also when case is ignored. *)
Lemma pm_lit fl (t : string) p g s :
  forallb (fun x => lit_match fl x x) (U t) = true ->
  pattern_match fl (lit t ++ p) g (U t ++ s) = pattern_match fl p g s.
Proof.
  unfold lit. generalize (U t) as l. induction l as [|x l IH]; intros H.
  - reflexivity.
  - simpl in H. apply andb_prop in H. destruct H as [Hx Hl].
    simpl map. simpl app. rewrite pm_one by exact Hx. now apply IH.
Qed.

Lemma pm_star_stop fl c p g x s :
  cls_match fl c x = false ->
  pattern_match fl (Atom Star c :: p) g (x :: s)
  = pattern_match fl p g (x :: s).
Proof. intros H. simpl. rewrite H. simpl. apply app_nil_r. Qed.

(** A lazy repetition runs over text in which the rest of the pattern
    cannot start, up to the first place where it can. *)
Lemma pm_lazy_run fl c p g a b m ms :
  (forall x, In x a -> cls_match fl c x = true) ->
  (forall x t, In x a -> pattern_match fl p g (x :: t) = []) ->
  pattern_match fl p g b = m :: ms ->
  exists ms', pattern_match fl (Atom LazyStar c :: p) g (a ++ b) = m :: ms'.
Proof.
  intros Hc Hp Hb. simpl pattern_match. simpl atom_match.
  induction a as [|x a IH].
  - simpl app. destruct b as [|y b]; simpl; rewrite Hb;
      rewrite <- app_comm_cons; eauto.
  - simpl app. simpl star_lazy. rewrite Hc by now left.
    simpl flat_map. rewrite Hp by now left. simpl app at 1.
    apply IH.
    + intros y Hy. apply Hc. now right.
    + intros y t Hy. apply Hp. now right.
Qed.

(** ** The characters of the result *)

Lemma scan_keep_in fl p s : forall k c,
  In (Keep c) (scan fl p s k) -> In c s.
Proof.
  induction s as [|x s IH]; intros k c.
  - destruct k; cbn [scan]; [|contradiction].
    destruct (match_at fl p false []) as [m|]; [|contradiction].
    destruct (length [] - length (snd m)) as [|n].
    + intros [H|H]; [discriminate|].
      destruct (match_at fl p true []) as [m'|]; [|contradiction].
      destruct H as [H|[]]. discriminate.
    + intros [H|[]]. discriminate.
  - destruct k as [|k]; cbn [scan].
    + destruct (match_at fl p false (x :: s)) as [m|].
      * destruct (length (x :: s) - length (snd m)) as [|n].
        -- intros [H|H]; [discriminate|].
           destruct (match_at fl p true (x :: s)) as [m'|].
           ++ destruct H as [H|H]; [discriminate|]. right. eapply IH, H.
           ++ destruct H as [[= ->]|H]; [now left|]. right. eapply IH, H.
        -- intros [H|H]; [discriminate|]. right. eapply IH, H.
      * intros [[= ->]|H]; [now left|]. right. eapply IH, H.
    + intros H. right. eapply IH, H.
Qed.

(** A property of characters that holds of the string and of the
    replacement text holds of the result of [sub]. *)
Lemma sub_Forall (P : char -> Prop) fl p t s :
  Forall P s -> Forall P t -> Forall P (sub fl p [TText t] s).
Proof.
  intros Hs Ht. unfold sub. apply Forall_forall. intros c Hc.
  apply in_flat_map in Hc. destruct Hc as (tok & Htok & Hc).
  destruct tok as [c'|text g].
  - destruct Hc as [<-|[]]. apply scan_keep_in in Htok.
    rewrite Forall_forall in Hs. now apply Hs.
  - simpl in Hc. rewrite app_nil_r in Hc.
    rewrite Forall_forall in Ht. now apply Ht.
Qed.

Lemma lstrip_Forall (P : char -> Prop) s : Forall P s -> Forall P (lstrip s).
Proof.
  induction 1 as [|x s Hx Hs IH]; simpl; [constructor|].
  destruct (isspace x); [exact IH | now constructor].
Qed.

Lemma strip_Forall (P : char -> Prop) s : Forall P s -> Forall P (strip s).
Proof.
  intros H. unfold strip, rstrip. apply Forall_rev, lstrip_Forall, Forall_rev.
  now apply lstrip_Forall.
Qed.
End RegexFacts.

(* ===================================================================== *)
(** * The sanitizer on a style block followed by a script block *)
(* ===================================================================== *)

Section StyleScript.
Context {UD : UnicodeData}.
Import re PDFConverter.

(** With the runtime [CPython] the primary pass returns: the sanitizer
    is the composition of its substitutions. *)
Lemma sanitize_CPython self s :
  _sanitize_css_for_pdf (RT := CPython) self s
  = Return
      (strip
         (sub NOFLAG before_gt_pattern [TText (U ">")]
         (sub NOFLAG after_lt_pattern [TText (U "<")]
         (sub NOFLAG between_tags_pattern [TText (U "><")]
         (sub NOFLAG spaces_pattern [TText (U " ")]
         (sub DOTALL_IGNORECASE script_pattern []
         (sub IGNORECASE (attr_pattern (lit "role")) []
         (sub IGNORECASE (attr_pattern (lit "aria-" ++ [Atom Star AnyChar])) []
         (sub IGNORECASE (attr_pattern (lit "data-" ++ [Atom Star AnyChar])) []
         (sub IGNORECASE (attr_pattern (lit "id")) []
         (sub IGNORECASE class_pattern []
         (sub IGNORECASE link_css_pattern []
         (sub IGNORECASE inline_style_pattern []
         (sub DOTALL_IGNORECASE style_pattern [] s)))))))))))))).
Proof. reflexivity. Qed.

(** Case is ignored only among letters: a pattern character below [A]
    matches itself alone. *)
Lemma ignorecase_match_sign p x :
  (p < 65)%N -> ignorecase_match p x = (x =? p)%N.
Proof.
  intros Hp. unfold ignorecase_match, is_ascii, ascii_lower, is_ascii_upper.
  replace (p <? 128)%N with true by (symmetry; apply N.ltb_lt; lia).
  replace (65 <=? p)%N with false by (symmetry; apply N.leb_gt; lia).
  simpl.
  replace (p =? 105)%N with false by (symmetry; apply N.eqb_neq; lia).
  replace (p =? 115)%N with false by (symmetry; apply N.eqb_neq; lia).
  replace (p =? 107)%N with false by (symmetry; apply N.eqb_neq; lia).
  simpl. rewrite !orb_false_r.
  destruct (N.eqb_spec x p) as [->|Hne].
  - replace (p <? 128)%N with true by (symmetry; apply N.ltb_lt; lia).
    replace (65 <=? p)%N with false by (symmetry; apply N.leb_gt; lia).
    simpl. apply N.eqb_refl.
  - destruct (x <? 128)%N; [|reflexivity]. simpl.
    destruct (65 <=? x)%N eqn:E1; simpl.
    + destruct (x <=? 90)%N; apply N.eqb_neq; [|assumption].
      apply N.leb_le in E1. lia.
    + now apply N.eqb_neq.
Qed.

Lemma lit_match_sign fl p x :
  (p < 65)%N -> lit_match fl p x = (x =? p)%N.
Proof.
  intros Hp. unfold lit_match. destruct (ignorecase fl).
  - now apply ignorecase_match_sign.
  - apply N.eqb_sym.
Qed.

Lemma lacks_lt fl t :
  (forall c, In c t -> c <> lt_sign) -> lacks fl (Lit lt_sign) t.
Proof.
  intros H x Hx. simpl. rewrite lit_match_sign by reflexivity.
  apply N.eqb_neq. now apply H.
Qed.

Lemma lacks_gt fl t :
  (forall c, In c t -> c <> gt_sign) -> lacks fl (Lit gt_sign) t.
Proof.
  intros H x Hx. simpl. rewrite lit_match_sign by reflexivity.
  apply N.eqb_neq. now apply H.
Qed.

Lemma lacks_quotes fl t :
  (forall c, In c t -> c <> dquote /\ c <> squote) ->
  lacks fl (OneOf quotes) t.
Proof.
  intros H x Hx. destruct (H x Hx) as [H1 H2]. simpl.
  rewrite !lit_match_sign by reflexivity.
  apply N.eqb_neq in H1, H2. now rewrite H1, H2.
Qed.

Lemma lacks_forallb fl c s :
  forallb (fun x => negb (cls_match fl c x)) s = true -> lacks fl c s.
Proof.
  intros H x Hx. rewrite forallb_forall in H.
  now apply negb_true_iff, H.
Qed.

(** A block [<name ...> ... </name>] whose body has no [<] is matched
    as a whole, attributes and body included. *)
Lemma block_match (op cl : string) body rest :
  forallb (fun x => lit_match DOTALL_IGNORECASE x x) (U op) = true ->
  forallb (fun x => lit_match DOTALL_IGNORECASE x x) (U cl) = true ->
  (forall x t, x <> lt_sign ->
     pattern_match DOTALL_IGNORECASE (lit cl) None (x :: t) = []) ->
  style_body body ->
  exists ms,
    pattern_match DOTALL_IGNORECASE
      (lit op ++ [Atom Star (NotIn [gt_sign]); Atom One (Lit gt_sign);
                  Atom LazyStar AnyChar] ++ lit cl)
      None (U op ++ gt_sign :: body ++ U cl ++ rest)
    = (None, rest) :: ms.
Proof.
  intros Hop Hcl Hfirst Hbody.
  rewrite pm_lit by exact Hop. cbn [app].
  rewrite pm_star_stop by reflexivity.
  rewrite pm_one by reflexivity.
  apply pm_lazy_run with (ms := []).
  - reflexivity.
  - intros x t Hx. apply Hfirst. now apply Hbody.
  - rewrite <- (app_nil_r (lit cl)). now rewrite pm_lit.
Qed.

Lemma style_block_match body rest :
  style_body body ->
  exists ms,
    pattern_match DOTALL_IGNORECASE style_pattern None
      (U "<style>" ++ body ++ U "</style>" ++ rest)
    = (None, rest) :: ms.
Proof.
  intros H.
  apply (block_match "<style" "</style>" rest); try reflexivity; [|exact H].
  intros x t Hx. apply pattern_match_first_fails; [now left|].
  unfold cls_match. rewrite lit_match_sign by reflexivity.
  now apply N.eqb_neq.
Qed.

Lemma script_block_match body rest :
  style_body body ->
  exists ms,
    pattern_match DOTALL_IGNORECASE script_pattern None
      (U "<script>" ++ body ++ U "</script>" ++ rest)
    = (None, rest) :: ms.
Proof.
  intros H.
  apply (block_match "<script" "</script>" rest); try reflexivity; [|exact H].
  intros x t Hx. apply pattern_match_first_fails; [now left|].
  unfold cls_match. rewrite lit_match_sign by reflexivity.
  now apply N.eqb_neq.
Qed.

(** No style block starts inside the tags of a script block. *)
Lemma style_keeps_script_tags s :
  sub DOTALL_IGNORECASE style_pattern [] (U "<script>" ++ s)
  = U "<script>" ++ sub DOTALL_IGNORECASE style_pattern [] s
  /\ sub DOTALL_IGNORECASE style_pattern [] (U "</script>" ++ s)
     = U "</script>" ++ sub DOTALL_IGNORECASE style_pattern [] s.
Proof.
  split.
  - change (U "<script>") with [60; 115; 99; 114; 105; 112; 116; 62]%N.
    cbn [app]. now rewrite !sub_keep by reflexivity.
  - change (U "</script>") with [60; 47; 115; 99; 114; 105; 112; 116; 62]%N.
    cbn [app]. now rewrite !sub_keep by reflexivity.
Qed.

Lemma after_none sub s :
  sub <> [] -> (forall c, In c s -> Some c <> hd_error sub) -> after sub s = None.
Proof.
  intros Hne H. destruct sub as [|a sub]; [congruence|].
  induction s as [|x s IH]; [reflexivity|]. simpl.
  destruct (N.eqb_spec a x) as [->|_].
  - exfalso. apply (H x); [now left | reflexivity].
  - simpl. apply IH. intros c Hc. apply H. now right.
Qed.

Lemma has_block_no_lt name s :
  (forall c, In c s -> c <> lt_sign) -> has_block name s = false.
Proof.
  intros H. unfold has_block. rewrite after_none; [reflexivity|discriminate|].
  intros c Hc. simpl. intros [= ->]. now apply (H _ Hc).
Qed.

Lemma style_skips_text t s :
  (forall c, In c t -> c <> lt_sign) ->
  sub DOTALL_IGNORECASE style_pattern [] (t ++ s)
  = t ++ sub DOTALL_IGNORECASE style_pattern [] s.
Proof.
  intros H.
  change style_pattern with (Atom One (Lit lt_sign) :: tl style_pattern).
  apply sub_skip_text; [now left | now apply lacks_lt].
Qed.

Lemma script_skips_text t s :
  (forall c, In c t -> c <> lt_sign) ->
  sub DOTALL_IGNORECASE script_pattern [] (t ++ s)
  = t ++ sub DOTALL_IGNORECASE script_pattern [] s.
Proof.
  intros H.
  change script_pattern with (Atom One (Lit lt_sign) :: tl script_pattern).
  apply sub_skip_text; [now left | now apply lacks_lt].
Qed.

(** C6, as the code has it.  For plain texts [t1], [t2], [t3] (without
    [<], [>] and quote characters) around a style block whose body has
    no [<], followed by a script block whose body has no [<] and no
    quote character, the sanitizer returns the three texts, joined, with
    every run of whitespace collapsed to one space and the ends trimmed.
    The result contains neither a style block nor a script block. *)
Theorem style_script_removed self t1 css t2 js t3 :
  plain_text t1 -> plain_text t2 -> plain_text t3 ->
  style_body css -> script_body js ->
  _sanitize_css_for_pdf (RT := CPython) self
    (t1 ++ U "<style>" ++ css ++ U "</style>" ++ t2
     ++ U "<script>" ++ js ++ U "</script>" ++ t3)
  = Return (normalize_whitespace (t1 ++ t2 ++ t3))
  /\ has_block "style" (normalize_whitespace (t1 ++ t2 ++ t3)) = false
  /\ has_block "script" (normalize_whitespace (t1 ++ t2 ++ t3)) = false.
Proof.
  intros H1 H2 H3 Hcss Hjs.
  assert (L1 : forall c, In c t1 -> c <> lt_sign) by (intros c Hc; apply (H1 c Hc)).
  assert (L2 : forall c, In c t2 -> c <> lt_sign) by (intros c Hc; apply (H2 c Hc)).
  assert (L3 : forall c, In c t3 -> c <> lt_sign) by (intros c Hc; apply (H3 c Hc)).
  assert (Ljs : style_body js) by (intros c Hc; apply (Hjs c Hc)).
  assert (Q1 : forall c, In c t1 -> c <> dquote /\ c <> squote)
    by (intros c Hc; destruct (H1 c Hc) as (_ & _ & ? & ?); now split).
  assert (Q2 : forall c, In c t2 -> c <> dquote /\ c <> squote)
    by (intros c Hc; destruct (H2 c Hc) as (_ & _ & ? & ?); now split).
  assert (Q3 : forall c, In c t3 -> c <> dquote /\ c <> squote)
    by (intros c Hc; destruct (H3 c Hc) as (_ & _ & ? & ?); now split).
  assert (Qjs : forall c, In c js -> c <> dquote /\ c <> squote)
    by (intros c Hc; destruct (Hjs c Hc) as (_ & ? & ?); now split).
  (* step 1: the style block goes, nothing else does *)
  assert (S1 :
    sub DOTALL_IGNORECASE style_pattern []
      (t1 ++ U "<style>" ++ css ++ U "</style>" ++ t2
       ++ U "<script>" ++ js ++ U "</script>" ++ t3)
    = t1 ++ t2 ++ U "<script>" ++ js ++ U "</script>" ++ t3).
  { rewrite style_skips_text by exact L1. f_equal.
    destruct (style_block_match
                (t2 ++ U "<script>" ++ js ++ U "</script>" ++ t3) Hcss)
      as (ms & Hm).
    rewrite (@sub_hit _ _ _ _ _ (U "<style>" ++ css ++ U "</style>") _ _ _ Hm).
    - cbn [expand flat_map app].
      rewrite style_skips_text by exact L2. f_equal.
      rewrite (proj1 (style_keeps_script_tags _)). f_equal.
      rewrite style_skips_text by exact Ljs. f_equal.
      rewrite (proj2 (style_keeps_script_tags _)). f_equal.
      apply sub_lacks with (Lit lt_sign); [|now apply lacks_lt].
      needs_item (Atom One (Lit lt_sign)).
    - now rewrite <- !app_assoc.
    - discriminate. }
  (* steps 2 to 5: without a quote character no attribute pattern matches *)
  assert (Hq : lacks IGNORECASE (OneOf quotes)
                 (t1 ++ t2 ++ U "<script>" ++ js ++ U "</script>" ++ t3)).
  { repeat apply lacks_app;
      first [ now apply lacks_quotes | now apply lacks_forallb ]. }
  (* step 6: the script block goes *)
  assert (S6 :
    sub DOTALL_IGNORECASE script_pattern []
      (t1 ++ t2 ++ U "<script>" ++ js ++ U "</script>" ++ t3)
    = t1 ++ t2 ++ t3).
  { rewrite script_skips_text by exact L1. f_equal.
    rewrite script_skips_text by exact L2. f_equal.
    destruct (script_block_match t3 Ljs) as (ms & Hm).
    rewrite (@sub_hit _ _ _ _ _ (U "<script>" ++ js ++ U "</script>") _ _ _ Hm).
    - cbn [expand flat_map app].
      apply sub_lacks with (Lit lt_sign); [|now apply lacks_lt].
      needs_item (Atom One (Lit lt_sign)).
    - now rewrite <- !app_assoc.
    - discriminate. }
  (* step 7 leaves no markup character behind *)
  assert (Hplain : Forall (fun c => c <> lt_sign /\ c <> gt_sign)
                     (sub NOFLAG spaces_pattern [TText (U " ")]
                        (t1 ++ t2 ++ t3))).
  { apply sub_Forall.
    - apply Forall_forall. intros c Hc.
      apply in_app_or in Hc. destruct Hc as [Hc|Hc];
        [destruct (H1 c Hc) as (? & ? & _); now split|].
      apply in_app_or in Hc. destruct Hc as [Hc|Hc];
        [destruct (H2 c Hc) as (? & ? & _) | destruct (H3 c Hc) as (? & ? & _)];
        now split.
    - repeat constructor; discriminate. }
  rewrite Forall_forall in Hplain.
  assert (Hout : forall c,
    In c (normalize_whitespace (t1 ++ t2 ++ t3)) -> c <> lt_sign).
  { unfold normalize_whitespace. intros c Hc.
    assert (F : Forall (fun c => c <> lt_sign)
                  (strip (sub NOFLAG spaces_pattern [TText (U " ")]
                            (t1 ++ t2 ++ t3)))).
    { apply strip_Forall, Forall_forall. intros x Hx. apply (Hplain x Hx). }
    rewrite Forall_forall in F. now apply F. }
  split; [|split; now apply has_block_no_lt].
  rewrite sanitize_CPython, S1.
  rewrite (@sub_lacks _ IGNORECASE (OneOf quotes) inline_style_pattern [] _
             ltac:(needs_item (Atom One (OneOf quotes))) Hq).
  rewrite (@sub_lacks _ IGNORECASE (OneOf quotes) link_css_pattern [] _
             ltac:(needs_item (Atom One (OneOf quotes))) Hq).
  rewrite (@sub_lacks _ IGNORECASE (OneOf quotes) class_pattern [] _
             ltac:(needs_item (Atom One (OneOf quotes))) Hq).
  rewrite (@sub_lacks _ IGNORECASE (OneOf quotes) (attr_pattern (lit "id")) [] _
             ltac:(needs_item (Atom One (OneOf quotes))) Hq).
  rewrite (@sub_lacks _ IGNORECASE (OneOf quotes)
             (attr_pattern (lit "data-" ++ [Atom Star AnyChar])) [] _
             ltac:(needs_item (Atom One (OneOf quotes))) Hq).
  rewrite (@sub_lacks _ IGNORECASE (OneOf quotes)
             (attr_pattern (lit "aria-" ++ [Atom Star AnyChar])) [] _
             ltac:(needs_item (Atom One (OneOf quotes))) Hq).
  rewrite (@sub_lacks _ IGNORECASE (OneOf quotes) (attr_pattern (lit "role")) [] _
             ltac:(needs_item (Atom One (OneOf quotes))) Hq).
  rewrite S6.
  rewrite (@sub_lacks _ NOFLAG (Lit gt_sign) between_tags_pattern).
  2: needs_item (Atom One (Lit gt_sign)).
  2: apply lacks_gt; intros c Hc; apply (Hplain c Hc).
  rewrite (@sub_lacks _ NOFLAG (Lit lt_sign) after_lt_pattern).
  2: needs_item (Atom One (Lit lt_sign)).
  2: apply lacks_lt; intros c Hc; apply (Hplain c Hc).
  rewrite (@sub_lacks _ NOFLAG (Lit gt_sign) before_gt_pattern).
  2: needs_item (Atom One (Lit gt_sign)).
  2: apply lacks_gt; intros c Hc; apply (Hplain c Hc).
  reflexivity.
Qed.
End StyleScript.

(* ===================================================================== *)
(** * Where the code departs from the attribute and injection rules *)
(* ===================================================================== *)

Section Departures.
Context {UD : UnicodeData}.
Import PDFConverter.

(** C7.  Step 5 on [<div data-x='1' title='foo'>]: the pattern made
    from ['data-.*'] runs, greedily, to the last quoted value of the
    line, so the [title] attribute, which is not in the list, is removed
    together with [data-x]. *)
Theorem css_attribute_loop_overreaches :
  remove_css_attributes (RT := CPython) (U "<div data-x='1' title='foo'>")
  = (Return tt, U "<div>").
Proof. vm_compute. reflexivity. Qed.

(** The same loop does remove the listed attributes and nothing else
    when each of them is the last quoted attribute of its line. *)
Lemma css_attribute_loop_example :
  remove_css_attributes (RT := CPython)
    (U "<div title='foo' id='a' role='r' aria-l='b' data-x='1'>")
  = (Return tt, U "<div title='foo'>").
Proof. vm_compute. reflexivity. Qed.

Lemma lower_app a b : lower (a ++ b) = lower a ++ lower b.
Proof. apply flat_map_app. Qed.

Lemma lower_length s : lower_keeps_length s -> length (lower s) = length s.
Proof.
  induction 1 as [|c s Hc Hs IH]; [reflexivity|].
  change (lower (c :: s)) with (lower_char c ++ lower s).
  rewrite length_app, Hc, IH. reflexivity.
Qed.

Lemma lower_firstn n : forall s,
  lower_keeps_length s -> lower (firstn n s) = firstn n (lower s).
Proof.
  induction n as [|n IH]; intros s Hs; [reflexivity|].
  destruct Hs as [|c s Hc Hs]; [reflexivity|].
  change (lower (c :: s)) with (lower_char c ++ lower s).
  change (lower (firstn (S n) (c :: s)))
    with (lower_char c ++ lower (firstn n s)).
  destruct (lower_char c) as [|x [|y l]]; try discriminate.
  simpl. now rewrite IH.
Qed.

Lemma starts_with_firstn sub : forall s,
  starts_with sub s = str_eqb (firstn (length sub) s) sub.
Proof.
  induction sub as [|a sub IH]; intros s; [reflexivity|].
  destruct s as [|b s]; [reflexivity|]. simpl.
  rewrite IH. destruct (N.eqb_spec a b) as [->|Hab]; simpl.
  - destruct (str_eqb (firstn (length sub) s) sub) eqn:E.
    + apply str_eqb_eq in E. symmetry. apply str_eqb_eq. now rewrite E.
    + apply str_eqb_neq in E. symmetry. apply str_eqb_neq. congruence.
  - symmetry. apply str_eqb_neq. congruence.
Qed.

(** On a string whose characters keep their length, searching the
    lowercased copy finds the place where the tag stands in the string
    itself. *)
Lemma find_split_at_tag tag s :
  lower_keeps_length s ->
  match split_at_tag tag s with
  | Some (pre, t, post) =>
      contains tag (lower s) = true
      /\ find tag (lower s) = Z.of_nat (length pre)
      /\ s = pre ++ t ++ post
      /\ length t = length tag
  | None => contains tag (lower s) = false
  end.
Proof.
  induction 1 as [|c s Hc Hs IH].
  - cbn [split_at_tag]. rewrite firstn_nil. change (lower []) with (@nil char).
    destruct tag as [|a tag]; [now cbn|]. reflexivity.
  - cbn [split_at_tag].
    assert (Hcs : lower_keeps_length (c :: s)) by now constructor.
    rewrite (lower_firstn _ Hcs), <- starts_with_firstn.
    destruct (starts_with tag (lower (c :: s))) eqn:Est.
    + repeat split.
      * destruct (lower (c :: s)); cbn [contains]; now rewrite Est.
      * destruct (lower (c :: s)); cbn [find]; now rewrite Est.
      * cbn [app]. symmetry. apply firstn_skipn.
      * rewrite starts_with_firstn in Est. apply str_eqb_eq in Est.
        apply (f_equal (@length _)) in Est.
        rewrite <- (lower_firstn _ Hcs) in Est.
        rewrite lower_length in Est; [exact Est|].
        unfold lower_keeps_length. apply Forall_forall. intros x Hx.
        unfold lower_keeps_length in Hcs. rewrite Forall_forall in Hcs.
        apply Hcs. rewrite <- (firstn_skipn (length tag) (c :: s)).
        apply in_or_app. now left.
    + change (lower (c :: s)) with (lower_char c ++ lower s) in *.
      destruct (lower_char c) as [|x [|y l]]; try discriminate.
      cbn [app] in *. cbn [contains find]. rewrite Est. cbn [orb].
      destruct (split_at_tag tag s) as [[[pre t] post]|].
      * destruct IH as (H1 & H2 & H3 & H4). repeat split.
        -- exact H1.
        -- rewrite H2. destruct (Z.ltb_spec (Z.of_nat (length pre)) 0); [lia|].
           cbn [length]. lia.
        -- cbn [app]. now rewrite <- H3.
        -- exact H4.
      * exact IH.
Qed.

Lemma slices_at pre t post :
  slice_to (pre ++ t ++ post) (Z.of_nat (length pre) + Z.of_nat (length t))
  = pre ++ t
  /\ slice_from (pre ++ t ++ post)
       (Z.of_nat (length pre) + Z.of_nat (length t))
     = post.
Proof.
  unfold slice_to, slice_from, slice_index.
  destruct (Z.ltb_spec (Z.of_nat (length pre) + Z.of_nat (length t)) 0);
    [lia|].
  replace (Z.to_nat (Z.of_nat (length pre) + Z.of_nat (length t)))
    with (length (pre ++ t)) by (rewrite length_app; lia).
  rewrite app_assoc. split.
  - rewrite firstn_app, firstn_all, Nat.sub_diag. cbn. apply app_nil_r.
  - rewrite skipn_app, skipn_all, Nat.sub_diag. reflexivity.
Qed.

(** On a sanitized document whose characters keep their length when
    lowercased, the stylesheet goes where the rule says. *)
Lemma stylesheet_injection_rule {RT : PyRuntime} self html_content sanitized_html :
  _sanitize_css_for_pdf self html_content = Return sanitized_html ->
  lower_keeps_length sanitized_html ->
  _enhance_html_for_pdf self html_content
  = Return (injection_rule sanitized_html).
Proof.
  intros Hs Hk. unfold _enhance_html_for_pdf, injection_rule. rewrite Hs.
  f_equal.
  pose proof (@find_split_at_tag (U "<head>") _ Hk) as Hhead.
  destruct (split_at_tag (U "<head>") sanitized_html) as [[[pre t] post]|].
  - destruct Hhead as (-> & -> & Heq & Hlen).
    change (length (U "<head>")) with 6 in *. rewrite <- Hlen.
    rewrite Heq at 1 2. destruct (slices_at pre t post) as [-> ->].
    now rewrite <- app_assoc.
  - rewrite Hhead.
    pose proof (@find_split_at_tag (U "<html>") _ Hk) as Hhtml.
    destruct (split_at_tag (U "<html>") sanitized_html) as [[[pre t] post]|].
    + destruct Hhtml as (-> & -> & Heq & Hlen).
      change (length (U "<html>")) with 6 in *. rewrite <- Hlen.
      rewrite Heq at 1 2. destruct (slices_at pre t post) as [-> ->].
      now rewrite <- app_assoc.
    + now rewrite Hhtml.
Qed.

(** C8.  On a document with U+0130 before [<head>], the position found
    in the lowercased copy, which is one code point longer, is one too
    far to the right in the document itself: the stylesheet is inserted
    after the [x], not immediately after [<head>]. *)
Theorem stylesheet_misplaced_after_dotted_I self :
  _enhance_html_for_pdf (RT := CPython) self
    (capital_I_dot :: U "<head>x")
  = Return (capital_I_dot :: U "<head>x" ++ pdf_css)
  /\ _enhance_html_for_pdf (RT := CPython) self
       (capital_I_dot :: U "<head>x")
     <> Return (capital_I_dot :: U "<head>" ++ pdf_css ++ U "x").
Proof.
  split.
  - vm_compute. reflexivity.
  - intros H.
    apply (f_equal (fun o => match o with
                             | Return s => nth 7 s 0%N
                             | Raise _ => 0%N
                             end)) in H.
    vm_compute in H. discriminate.
Qed.

(** Without such a character the three cases are as described. *)
Lemma stylesheet_injection_examples self :
  _enhance_html_for_pdf (RT := CPython) self (U "<HTML><Head><p>x</p>")
  = Return (U "<HTML><Head>" ++ pdf_css ++ U "<p>x</p>")
  /\ _enhance_html_for_pdf (RT := CPython) self (U "<Html><p>x</p></Html>")
     = Return (U "<Html><head>" ++ pdf_css ++ U "</head><p>x</p></Html>")
  /\ _enhance_html_for_pdf (RT := CPython) self (U "<p>x</p>")
     = Return (U "<html><head>" ++ pdf_css ++ U "</head><body><p>x</p></body></html>").
Proof. repeat split; vm_compute; reflexivity. Qed.
End Departures.

(* ===================================================================== *)
(** * Concrete runs *)
(* ===================================================================== *)

#[local] Existing Instance identity_table.

Lemma plain_text_forallb t :
  forallb (fun c => negb (c =? 60)%N && negb (c =? 62)%N
                    && negb (c =? 34)%N && negb (c =? 39)%N) t = true ->
  plain_text t.
Proof.
  intros H c Hc. rewrite forallb_forall in H. specialize (H c Hc).
  repeat (apply andb_prop in H; destruct H as [H ?]).
  repeat match goal with
         | K : negb (_ =? _)%N = true |- _ =>
             apply negb_true_iff, N.eqb_neq in K
         end.
  unfold PDFConverter.lt_sign, PDFConverter.gt_sign, dquote, squote. auto.
Defined.

Lemma script_body_forallb t :
  forallb (fun c => negb (c =? 60)%N && negb (c =? 34)%N
                    && negb (c =? 39)%N) t = true ->
  script_body t.
Proof.
  intros H c Hc. rewrite forallb_forall in H. specialize (H c Hc).
  repeat (apply andb_prop in H; destruct H as [H ?]).
  repeat match goal with
         | K : negb (_ =? _)%N = true |- _ =>
             apply negb_true_iff, N.eqb_neq in K
         end.
  unfold PDFConverter.lt_sign, dquote, squote. auto.
Defined.

Lemma style_body_forallb t :
  forallb (fun c => negb (c =? 60)%N) t = true -> style_body t.
Proof.
  intros H c Hc. rewrite forallb_forall in H. specialize (H c Hc).
  apply negb_true_iff, N.eqb_neq in H. exact H.
Defined.

(** ** The path mapper *)

(** The example of the specification: [map("a/b/c.HTML", "/out", "b/c.HTML")]
    is [/out/b/c.pdf]. *)
Lemma get_pdf_path_mirrors_witness :
  to_str (PDFConverter.get_pdf_path (PDFConverter.mk None)
            (of_str (U "a/b/c.HTML")) (of_str (U "/out"))
            (of_str (U "b/c.HTML")))
  = U "/out/b/c.pdf"
  /\ suffix (PDFConverter.get_pdf_path (PDFConverter.mk None)
               (of_str (U "a/b/c.HTML")) (of_str (U "/out"))
               (of_str (U "b/c.HTML")))
     = U ".pdf".
Proof.
  destruct (proj2 (@get_pdf_path_mirrors (PDFConverter.mk None)
                     (of_str (U "a/b/c.HTML")) (of_str (U "/out"))
                     (of_str (U "b/c.HTML"))))
    as [Hpath Hsuffix].
  - reflexivity.
  - vm_compute. discriminate.
  - vm_compute. intros H.
    repeat (destruct H as [H|H]; [discriminate|]). exact H.
  - split; [rewrite Hpath; reflexivity | exact Hsuffix].
Defined.

(** The nested page of the specification: [docs/sub/page.html] under the
    scanned root [docs], with the output root [out], goes to
    [out/sub/page.pdf]. *)
Lemma get_pdf_path_nested_example :
  to_str (PDFConverter.get_pdf_path (PDFConverter.mk None)
            (of_str (U "docs/sub/page.html")) (of_str (U "out/"))
            (of_str (U "sub/page.html")))
  = U "out/sub/page.pdf".
Proof. reflexivity. Qed.

(** ** Discovery *)

(** In the site, [docs/page.HTML] is a regular file with an HTML
    extension, and it is discovered. *)
Lemma discovery_exact_witness :
  In (Return (mkPath [] [U "docs"; U "page.HTML"]))
     (map (fun file_path =>
             fst (HTMLFileFinder.get_relative_path site_finder file_path tt))
          (HTMLFileFinder.find_html_files site_finder site_world)).
Proof.
  apply (proj1 (@discovery_exact identity_table (U "/site") site_world
                  site_finder site_world site_dir eq_refl eq_refl)).
  split; [reflexivity|]. split.
  - split; [discriminate|]. eexists. reflexivity.
  - left. reflexivity.
Defined.

(** What is discovered in the site: not [notes.txt], not the file named
    [.html], not the directory [docs]. *)
Lemma discovery_example :
  map to_str (HTMLFileFinder.find_html_files site_finder site_world)
  = [U "/site/index.html"; U "/site/broken.htm"; U "/site/docs/page.HTML"].
Proof. reflexivity. Qed.

(** A missing root and a root that is a file are refused at once. *)
Lemma setup_errors_example :
  fst (HTMLToPDFConverter.__init__ (U "/missing") None None site_world)
  = Raise FileNotFoundError
  /\ fst (HTMLToPDFConverter.__init__ (U "/site/notes.txt") None None site_world)
     = Raise NotADirectoryError.
Proof. split; reflexivity. Qed.

(** ** The orchestrator *)



(** An interruption during the first file passes through [convert_all];
    the other faults of the site do not. *)
Lemma interruption_example :
  exists c w0,
    HTMLToPDFConverter.__init__ (U "/site") None None site_world
    = (Return c, w0)
    /\ fst (HTMLToPDFConverter.convert_all interrupted_env
              (HTMLToPDFConverter.mkState c w0))
       = Raise KeyboardInterrupt.
Proof. eexists _, _. split; [run | vm_compute; reflexivity]. Qed.

(** ** The destination directory *)

(** C9 fails on the code: [broken.htm] cannot be read as text, the
    conversion returns [False], and yet the directory [/site/output], which
    did not exist before, exists afterwards. *)
Lemma directory_created_on_failure :
  exists w',
    PDFConverter.convert_html_to_pdf site_env (PDFConverter.mk None)
      (of_str (U "/site/broken.htm")) (of_str (U "/site/output/broken.pdf"))
      site_world
    = (Return false, w')
    /\ is_dir site_world (of_str (U "/site/output")) = false
    /\ is_dir w' (of_str (U "/site/output")) = true
    /\ fs w' <> fs site_world.
Proof.
  eexists. split; [run|]. split; [reflexivity|]. split; [reflexivity|].
  intros H.
  apply (f_equal (fun t => match lookup t [U "site"; U "output"] with
                           | Some _ => true
                           | None => false
                           end)) in H.
  vm_compute in H. discriminate.
Qed.

(** A write that fails: the conversion returns [False], and the
    destination, created by [open], holds the part of the data that was
    written. *)
Lemma failed_write_example :
  exists w',
    PDFConverter.convert_html_to_pdf failing_write_env (PDFConverter.mk None)
      (of_str (U "/site/index.html")) (of_str (U "/site/output/index.pdf"))
      site_world
    = (Return false, w')
    /\ stat site_world (of_str (U "/site/output/index.pdf")) = None
    /\ stat w' (of_str (U "/site/output/index.pdf")) = Some (File (U "%P")).
Proof. eexists. split; [run|]. split; reflexivity. Qed.

Lemma directory_created_first_witness :
  exists w',
    PDFConverter.convert_html_to_pdf site_env (PDFConverter.mk None)
      (of_str (U "/site/broken.htm")) (of_str (U "/site/output/broken.pdf"))
      site_world
    = (Return false, w')
    /\ is_dir w' (of_str (U "/site/output")) = true.
Proof.
  eexists. split; [run|].
  refine (proj2 (proj2
            (@directory_created_first identity_table CPython site_env
               (PDFConverter.mk None) (of_str (U "/site/broken.htm"))
               (of_str (U "/site/output/broken.pdf")) site_world
               _ (Return false) _ eq_refl _ _ _))).
  - run.
  - vm_compute. exact Logic.I.
  - run.
Defined.

(** ** The sanitizer *)

(** C6 fails on the code.  First input: a style block followed by a
    script block, then a style tag interrupted by an empty script block;
    removing the script blocks, which comes after removing the style
    blocks, puts a style block together, and it is in the output.  Second
    input: the plain text [a  b], with two spaces, comes out as [a b]. *)
Lemma style_script_roundtrip_fails :
  style_then_script
    (U "<style>x</style><script>j</script><sty<script></script>le>y</style>")
  = true
  /\ PDFConverter._sanitize_css_for_pdf (RT := CPython) (PDFConverter.mk None)
       (U "<style>x</style><script>j</script><sty<script></script>le>y</style>")
     = Return (U "<style>y</style>")
  /\ has_block "style" (U "<style>y</style>") = true
  /\ style_then_script (U "a  b<style>x</style><script>y</script>") = true
  /\ PDFConverter._sanitize_css_for_pdf (RT := CPython) (PDFConverter.mk None)
       (U "a  b<style>x</style><script>y</script>")
     = Return (U "a b")
  /\ contains (U "a  b") (U "a b") = false.
Proof. repeat split; vm_compute; reflexivity. Qed.

Lemma style_script_removed_witness :
  PDFConverter._sanitize_css_for_pdf (RT := CPython) (PDFConverter.mk None)
    (U "Hello  " ++ U "<style>" ++ U "p { color: red }" ++ U "</style>"
     ++ U "big " ++ U "<script>" ++ U "var x = 1 > 0;" ++ U "</script>"
     ++ U " world ")
  = Return (U "Hello big world").
Proof.
  transitivity (Return (normalize_whitespace
                          (U "Hello  " ++ U "big " ++ U " world "))).
  - apply (@style_script_removed identity_table (PDFConverter.mk None)).
    + apply plain_text_forallb. reflexivity.
    + apply plain_text_forallb. reflexivity.
    + apply plain_text_forallb. reflexivity.
    + apply style_body_forallb. reflexivity.
    + apply script_body_forallb. reflexivity.
  - vm_compute. reflexivity.
Defined.


(** The fallback tiers: with [no_dotall] the first substitution of the
    primary pass raises and the secondary pass answers, stripping the
    attributes and the tags outside the allow-list; with [no_re] the
    secondary pass raises as well and the placeholder is returned. *)
Lemma fallback_examples :
  PDFConverter._sanitize_css_for_pdf (RT := no_dotall) (PDFConverter.mk None)
    (U "<p class='x'>hi</p><font color='red'>there</font><br/>")
  = Return (U "<p>hi</p>there<br>")
  /\ PDFConverter._sanitize_css_for_pdf (RT := no_re) (PDFConverter.mk None)
       (U "<p class='x'>hi</p>")
     = Return PDFConverter.placeholder.
Proof. split; vm_compute; reflexivity. Qed.

(* ===================================================================== *)
(** * More about discovery and relative paths *)
(* ===================================================================== *)

Section MoreDiscovery.
Context {UD : UnicodeData}.

Lemma strip_prefix_Some pre : forall l rest,
  strip_prefix pre l = Some rest -> l = pre ++ rest.
Proof.
  induction pre as [|a pre IH]; intros l rest; simpl.
  - now intros [= ->].
  - destruct l as [|b l]; [discriminate|].
    destruct (str_eqb a b) eqn:E; [|discriminate].
    apply str_eqb_eq in E. subst b. intros H. f_equal. now apply IH.
Qed.

(** X1.  [get_relative_path] returns [rel] exactly when the file path is
    the base path joined with the relative path [rel]; on every other path
    it raises [ValueError], and nothing else.  It has no effect. *)
Theorem get_relative_path_exact {S} self file_path (s : S) :
  match HTMLFileFinder.get_relative_path self file_path s with
  | (Return rel, s') =>
      HTMLFileFinder.base_path self // rel = file_path
      /\ is_absolute rel = false /\ s' = s
  | (Raise e, s') =>
      e = ValueError /\ s' = s
      /\ forall rel, is_absolute rel = false ->
           HTMLFileFinder.base_path self // rel <> file_path
  end.
Proof.
  unfold HTMLFileFinder.get_relative_path, relative_to.
  destruct self as [base]. destruct file_path as [r ns]. simpl.
  destruct (str_eqb r (root base)) eqn:Er.
  - apply str_eqb_eq in Er. subst r.
    destruct (strip_prefix (names base) ns) as [rest|] eqn:Es.
    + apply strip_prefix_Some in Es. subst ns. unfold ret, truediv. simpl.
      auto.
    + unfold raise. repeat split. intros rel Hrel Heq.
      unfold truediv in Heq. rewrite Hrel in Heq. injection Heq as <-.
      now rewrite strip_prefix_app in Es.
  - unfold raise. repeat split. intros rel Hrel Heq.
    unfold truediv in Heq. rewrite Hrel in Heq. injection Heq as <- _.
    now rewrite str_eqb_refl in Er.
Qed.

Lemma NoDup_map_injective {A B} (f : A -> B) l :
  (forall a b, f a = f b -> a = b) -> NoDup l -> NoDup (map f l).
Proof.
  intros Hf. induction 1 as [|x l Hx Hl IH]; simpl; constructor; [|exact IH].
  intros K. apply in_map_iff in K. destruct K as (y & Hy & Hin).
  apply Hf in Hy. now subst.
Qed.

Lemma walk_head es q :
  In q (walk (Dir es)) -> exists y q', q = y :: q' /\ In y (map fst es).
Proof.
  induction es as [|[x c] es IH]; [contradiction|].
  rewrite walk_Dir_cons. intros [<-|H].
  - exists x, []. split; [reflexivity | now left].
  - apply in_app_or in H. destruct H as [H|H].
    + apply in_map_iff in H. destruct H as (q' & <- & _).
      exists x, q'. split; [reflexivity | now left].
    + destruct (IH H) as (y & q' & -> & Hy). exists y, q'.
      split; [reflexivity | now right].
Qed.

Lemma distinct_names_Dir x c es :
  distinct_names (Dir ((x, c) :: es))
  <-> ~ In x (map fst es) /\ distinct_names c /\ distinct_names (Dir es).
Proof.
  cbn [distinct_names map fst]. rewrite NoDup_cons_iff. tauto.
Qed.

(** On a tree without repeated names the walk meets every entry once. *)
Lemma walk_NoDup n : distinct_names n -> NoDup (walk n).
Proof.
  induction n as [data| |es IH] using node_ind; try (intros _; constructor).
  induction es as [|[x c] es IHes]; intros Hd; [constructor|].
  apply distinct_names_Dir in Hd. destruct Hd as (Hx & Hc & Hes).
  inversion IH as [|e es' Hce Hrest]; subst. simpl in Hce.
  rewrite walk_Dir_cons. apply NoDup_app.
  - constructor.
    + intros K. apply in_map_iff in K. destruct K as (q & [= ->] & Hq).
      now apply walk_nonempty in Hq.
    + apply NoDup_map_injective; [|now apply Hce].
      intros a b [= ->]. reflexivity.
  - now apply IHes.
  - intros q Hq Hq'. apply walk_head in Hq'.
    destruct Hq' as (y & q' & -> & Hy).
    destruct Hq as [[= <- _]|Hq]; [contradiction|].
    apply in_map_iff in Hq. destruct Hq as (q0 & [= <- _] & _).
    contradiction.
Qed.

(** X2.  When no directory beneath the base path has two entries of the
    same name, no file is discovered twice. *)
Theorem discovery_without_repeats self w d :
  stat w (HTMLFileFinder.base_path self) = Some d ->
  distinct_names d ->
  NoDup (HTMLFileFinder.get_html_files_list self w).
Proof.
  intros Hd Hn.
  unfold HTMLFileFinder.get_html_files_list, HTMLFileFinder.find_html_files,
    rglob_star.
  rewrite Hd. apply NoDup_filter. apply NoDup_map_injective.
  - intros a b [= H]. now apply app_inv_head in H.
  - now apply walk_NoDup.
Qed.
End MoreDiscovery.

(* ===================================================================== *)
(** * More about the path mapper *)
(* ===================================================================== *)

Section MorePaths.
Context {UD : UnicodeData} {RT : PyRuntime}.

Lemma parent_last r qs x : parent (mkPath r (qs ++ [x])) = mkPath r qs.
Proof.
  unfold parent. simpl. destruct (qs ++ [x]) eqn:E.
  - apply app_eq_nil in E. destruct E. discriminate.
  - now rewrite <- E, removelast_last.
Qed.

(** The stem of a file name that ends in [.html] or [.htm]. *)
Lemma stem_of_html r ds nm :
  nm <> [] ->
  stem (mkPath r (ds ++ [nm ++ U ".html"])) = nm
  /\ stem (mkPath r (ds ++ [nm ++ U ".htm"])) = nm.
Proof.
  intros Hne.
  assert (Hlen : 0 < length nm) by (destruct nm; [congruence | simpl; lia]).
  split; unfold stem, name; simpl names; rewrite last_last;
    unfold suffix_index; rewrite rfind_char_app.
  - change (rfind_char dot (U ".html")) with (Some 0).
    rewrite length_app. change (length (U ".html")) with 5.
    replace (0 <? length nm + 0) with true by (symmetry; apply Nat.ltb_lt; lia).
    replace (length nm + 0 <? length nm + 5 - 1) with true
      by (symmetry; apply Nat.ltb_lt; lia).
    simpl. rewrite Nat.add_0_r, firstn_app, firstn_all, Nat.sub_diag.
    apply app_nil_r.
  - change (rfind_char dot (U ".htm")) with (Some 0).
    rewrite length_app. change (length (U ".htm")) with 4.
    replace (0 <? length nm + 0) with true by (symmetry; apply Nat.ltb_lt; lia).
    replace (length nm + 0 <? length nm + 4 - 1) with true
      by (symmetry; apply Nat.ltb_lt; lia).
    simpl. rewrite Nat.add_0_r, firstn_app, firstn_all, Nat.sub_diag.
    apply app_nil_r.
Qed.

(** X3.  Two sources in the same directory whose names differ only in the
    extension, [.html] against [.htm], are mapped to the same PDF path:
    the second conversion writes over the first. *)
Theorem pdf_path_collision self nm r1 ds1 r2 ds2 output_base_path qs :
  nm <> [] ->
  PDFConverter.get_pdf_path self
    (mkPath r1 (ds1 ++ [nm ++ U ".html"])) output_base_path
    (mkPath [] (qs ++ [nm ++ U ".html"]))
  = PDFConverter.get_pdf_path self
      (mkPath r2 (ds2 ++ [nm ++ U ".htm"])) output_base_path
      (mkPath [] (qs ++ [nm ++ U ".htm"])).
Proof.
  intros Hne. unfold PDFConverter.get_pdf_path.
  rewrite (proj1 (stem_of_html r1 ds1 Hne)), (proj2 (stem_of_html r2 ds2 Hne)).
  now rewrite !parent_last.
Qed.

(** The names of the PDF path, for a relative path and a proper file
    name. *)
Lemma get_pdf_path_names self html_file_path output_base_path relative_path :
  is_absolute relative_path = false ->
  name html_file_path <> [] ->
  ~ In slash (name html_file_path) ->
  PDFConverter.get_pdf_path self html_file_path output_base_path relative_path
  = mkPath (root output_base_path)
           (names output_base_path
            ++ (removelast (names relative_path)
                ++ [stem html_file_path ++ U ".pdf"])).
Proof.
  intros Hrel Hne Hslash.
  unfold PDFConverter.get_pdf_path, truediv_str.
  rewrite of_str_name.
  - unfold truediv at 1. simpl is_absolute.
    unfold truediv. rewrite parent_absolute, Hrel. simpl.
    now rewrite parent_names, <- app_assoc.
  - intros K. apply in_app_or in K. destruct K as [K|K].
    + apply Hslash. now apply stem_incl.
    + simpl in K. unfold slash in K.
      repeat (destruct K as [K|K]; [discriminate|]). exact K.
  - intros K. apply app_eq_nil in K. destruct K. discriminate.
  - intros K. apply (f_equal (@length _)) in K.
    rewrite length_app in K. simpl in K. lia.
Qed.

Lemma In_removelast {A} (x : A) l : In x (removelast l) -> In x l.
Proof.
  induction l as [|a l IH]; [easy|]. simpl.
  destruct l as [|b l]; [easy|]. intros [H|H]; [now left | right; auto].
Qed.

(** X4.  For a relative path without a [..] component and a proper file
    name, the PDF path is the output root followed by the directories of
    the relative path and the PDF name, none of which is [..]: it does
    not step out of the output root, [relative_to] on the output root (as
    in [convert_files]) cannot raise, and its parent, the directory that
    [convert_html_to_pdf] creates, is the output root joined with the
    directory of the relative path. *)
Theorem pdf_path_beneath_output self html_file_path output_base_path relative_path :
  is_absolute relative_path = false ->
  name html_file_path <> [] ->
  ~ In slash (name html_file_path) ->
  ~ In (U "..") (names relative_path) ->
  relative_to
    (PDFConverter.get_pdf_path self html_file_path output_base_path
       relative_path)
    output_base_path
  = Some (mkPath [] (removelast (names relative_path)
                     ++ [stem html_file_path ++ U ".pdf"]))
  /\ ~ In (U "..") (removelast (names relative_path)
                    ++ [stem html_file_path ++ U ".pdf"])
  /\ parent (PDFConverter.get_pdf_path self html_file_path output_base_path
               relative_path)
     = output_base_path // parent relative_path.
Proof.
  intros Hrel Hne Hslash Hup.
  rewrite (@get_pdf_path_names self html_file_path output_base_path
             relative_path Hrel Hne Hslash).
  split; [|split].
  - unfold relative_to. simpl. now rewrite str_eqb_refl, strip_prefix_app.
  - intros H. apply in_app_or in H. destruct H as [H|[H|[]]].
    + apply Hup. now apply In_removelast.
    + apply (f_equal (@length _)) in H. rewrite length_app in H.
      simpl in H. lia.
  - rewrite !app_assoc, parent_last.
    unfold truediv. now rewrite parent_absolute, Hrel, parent_names.
Qed.
End MorePaths.

(* ===================================================================== *)
(** * More about [convert_html_to_pdf] and the file system *)
(* ===================================================================== *)

Section MoreConversion.
Context {UD : UnicodeData} {RT : PyRuntime}.
Variable E : Env.

Lemma lookup_entry_update_other x y c es :
  x <> y -> lookup_entry y (update_entry x c es) = lookup_entry y es.
Proof.
  intros Hxy. induction es as [|[z m] es IH]; simpl.
  - destruct (str_eqb y x) eqn:K; [|reflexivity].
    apply str_eqb_eq in K. congruence.
  - destruct (str_eqb x z) eqn:Exz; simpl.
    + apply str_eqb_eq in Exz. subst z.
      destruct (str_eqb y x) eqn:K; [|reflexivity].
      apply str_eqb_eq in K. congruence.
    + destruct (str_eqb y z); [reflexivity | exact IH].
Qed.

Lemma lookup_empty_dir q d : lookup (Dir []) q <> Some (File d).
Proof. destruct q; discriminate. Qed.

(** Making directories neither adds nor removes nor changes a file. *)
Lemma mkdir_parents_files p : forall n t q d,
  mkdir_parents n p = Return t ->
  (lookup t q = Some (File d) <-> lookup n q = Some (File d)).
Proof.
  induction p as [|x p IH]; intros n t q d; simpl.
  - destruct n as [data| |es]; try discriminate. now intros [= <-].
  - destruct n as [data| |es]; try discriminate.
    destruct (lookup_entry x es) as [c|] eqn:Ex.
    + destruct (mkdir_parents c p) as [c'|e] eqn:Ec; [|discriminate].
      intros [= <-]. destruct q as [|y q]; [simpl; split; discriminate|].
      simpl. destruct (list_eq_dec N.eq_dec x y) as [<-|Hxy].
      * rewrite lookup_entry_update, Ex. now apply IH.
      * now rewrite lookup_entry_update_other.
    + destruct (mkdir_parents (Dir []) p) as [c'|e] eqn:Ec; [|discriminate].
      intros [= <-]. destruct q as [|y q]; [simpl; split; discriminate|].
      simpl. destruct (list_eq_dec N.eq_dec x y) as [<-|Hxy].
      * rewrite lookup_entry_update, Ex. split; [|discriminate].
        intros H. apply (IH _ _ q d Ec) in H. now apply lookup_empty_dir in H.
      * now rewrite lookup_entry_update_other.
Qed.

Lemma mkdir_parents_error p : forall n e,
  mkdir_parents n p = Raise e -> is_Exception e = true.
Proof.
  induction p as [|x p IH]; intros n e; simpl.
  - destruct n; try discriminate; now intros [= <-].
  - destruct n as [data| |es]; try (now intros [= <-]).
    destruct (lookup_entry x es) as [c|].
    + destruct (mkdir_parents c p) as [c'|e'] eqn:Ec; [discriminate|].
      intros [= <-]. now apply IH with c.
    + destruct (mkdir_parents (Dir []) p) as [c'|e'] eqn:Ec; [discriminate|].
      intros [= <-]. now apply IH with (Dir []).
Qed.

(** After a write the path holds the data, unless it is a special file. *)
Lemma write_bytes_lookup p : forall n n' data,
  write_bytes n p data = Return n' ->
  lookup n' p = Some (File data) \/ lookup n' p = Some Special.
Proof.
  induction p as [|x p IH]; intros n n' data; simpl.
  - destruct n; try discriminate; intros [= <-]; auto.
  - destruct n as [d| |es]; try discriminate.
    destruct (lookup_entry x es) as [c|].
    + destruct (write_bytes c p data) as [c'|e] eqn:Ec; [|discriminate].
      intros [= <-]. simpl. rewrite lookup_entry_update. now apply IH with c.
    + destruct p; [|discriminate].
      intros [= <-]. simpl. rewrite lookup_entry_update. now left.
Qed.

(** A write leaves every file at another path as it is. *)
Lemma write_bytes_other_files p : forall n n' data q d,
  write_bytes n p data = Return n' ->
  q <> p ->
  lookup n q = Some (File d) -> lookup n' q = Some (File d).
Proof.
  induction p as [|x p IH]; intros n n' data q d; simpl.
  - destruct n; try discriminate; intros [= <-] Hq;
      (destruct q; [congruence | discriminate]).
  - destruct n as [d0| |es]; try discriminate.
    destruct (lookup_entry x es) as [c|] eqn:Ex.
    + destruct (write_bytes c p data) as [c'|e] eqn:Ec; [|discriminate].
      intros [= <-] Hq. destruct q as [|y q]; [discriminate|].
      simpl. destruct (list_eq_dec N.eq_dec x y) as [<-|Hxy].
      * rewrite lookup_entry_update, Ex. apply (IH _ _ _ _ _ Ec). congruence.
      * now rewrite lookup_entry_update_other.
    + destruct p; [|discriminate].
      intros [= <-] Hq. destruct q as [|y q]; [discriminate|].
      simpl. destruct (list_eq_dec N.eq_dec x y) as [<-|Hxy].
      * now rewrite Ex.
      * now rewrite lookup_entry_update_other.
Qed.

Lemma update_entry_twice x c c' es :
  update_entry x c' (update_entry x c es) = update_entry x c' es.
Proof.
  induction es as [|[y m] es IH]; simpl.
  - now rewrite str_eqb_refl.
  - destruct (str_eqb x y) eqn:Exy; simpl; rewrite Exy; [reflexivity|].
    now rewrite IH.
Qed.

(** Writing to a file that has just been written is writing to it as it
    was before, and succeeds. *)
Lemma write_bytes_twice p : forall n n0 d0 d,
  write_bytes n p d0 = Return n0 ->
  write_bytes n0 p d = write_bytes n p d
  /\ exists n1, write_bytes n p d = Return n1.
Proof.
  induction p as [|x p IH]; intros n n0 d0 d; simpl.
  - destruct n; try discriminate; intros [= <-]; eauto.
  - destruct n as [data| |es]; try discriminate.
    destruct (lookup_entry x es) as [c|] eqn:Ex.
    + destruct (write_bytes c p d0) as [c0|e] eqn:Ec; [|discriminate].
      intros [= <-]. rewrite lookup_entry_update.
      destruct (IH _ _ _ d Ec) as (-> & c1 & ->).
      rewrite update_entry_twice. eauto.
    + destruct p; [|discriminate].
      intros [= <-]. rewrite lookup_entry_update. simpl.
      rewrite update_entry_twice. eauto.
Qed.

(** Making directories neither adds nor removes a special file. *)
Lemma mkdir_parents_special p : forall n t q,
  mkdir_parents n p = Return t ->
  (lookup t q = Some Special <-> lookup n q = Some Special).
Proof.
  induction p as [|x p IH]; intros n t q; simpl.
  - destruct n as [data| |es]; try discriminate. now intros [= <-].
  - destruct n as [data| |es]; try discriminate.
    destruct (lookup_entry x es) as [c|] eqn:Ex.
    + destruct (mkdir_parents c p) as [c'|e] eqn:Ec; [|discriminate].
      intros [= <-]. destruct q as [|y q]; [simpl; split; discriminate|].
      simpl. destruct (list_eq_dec N.eq_dec x y) as [<-|Hxy].
      * rewrite lookup_entry_update, Ex. now apply IH.
      * now rewrite lookup_entry_update_other.
    + destruct (mkdir_parents (Dir []) p) as [c'|e] eqn:Ec; [|discriminate].
      intros [= <-]. destruct q as [|y q]; [simpl; split; discriminate|].
      simpl. destruct (list_eq_dec N.eq_dec x y) as [<-|Hxy].
      * rewrite lookup_entry_update, Ex. split; [|discriminate].
        intros H. apply (IH _ _ q Ec) in H. destruct q; discriminate.
      * now rewrite lookup_entry_update_other.
Qed.

(** The steps up to the render, seen from the file system: nothing
    done, or the destination directory made. *)
Lemma until_render_cases self html_file_path pdf_file_path w o w1 :
  convert_until_render E self html_file_path pdf_file_path w = (o, w1) ->
  cwd w1 = cwd w
  /\ ((fs w1 = fs w /\ exists e, o = Raise e)
      \/ (exists t,
            mkdir_parents (fs w) (fs_key w (parent pdf_file_path)) = Return t
            /\ fs w1 = t
            /\ ((exists e, o = Raise e)
                \/ exists data html enhanced,
                     source_bytes_spec E t (fs_key w html_file_path) data
                     /\ decode_utf8 E data = Some html
                     /\ PDFConverter._enhance_html_for_pdf self html
                        = Return enhanced
                     /\ pisa_CreatePDF E enhanced = o))).
Proof.
  unfold convert_until_render, bind, Path_mkdir, read_text, CreatePDF,
    syscall, pure, source_bytes_spec.
  destruct (fault_at E (clock w)) as [e0|].
  { intros [= <- <-]. split; [reflexivity|]. left. eauto. }
  simpl.
  change (fs_key (mkWorld (fs w) (cwd w) (S (clock w)))
                 (parent pdf_file_path))
    with (fs_key w (parent pdf_file_path)).
  destruct (mkdir_parents (fs w) (fs_key w (parent pdf_file_path)))
    as [t|e0] eqn:Hmk.
  2: { intros [= <- <-]. split; [reflexivity|]. left. eauto. }
  simpl.
  assert (Mid : forall e c,
            (@Raise pisa_status e, mkWorld t (cwd w) c) = (o, w1) ->
            cwd w1 = cwd w
            /\ ((fs w1 = fs w /\ exists e, o = Raise e)
                \/ (exists t0,
                      Return t = Return t0 /\ fs w1 = t0
                      /\ ((exists e, o = Raise e)
                          \/ exists data html enhanced,
                               (lookup t0 (fs_key w html_file_path)
                                = Some (File data)
                                \/ lookup t0 (fs_key w html_file_path)
                                   = Some Special
                                   /\ data = read_special E
                                               (fs_key w html_file_path))
                               /\ decode_utf8 E data = Some html
                               /\ PDFConverter._enhance_html_for_pdf self html
                                  = Return enhanced
                               /\ pisa_CreatePDF E enhanced = o)))).
  { intros e c [= <- <-]. split; [reflexivity|]. right. exists t.
    repeat split. left. eauto. }
  assert (Fin : forall data html enhanced c,
            (lookup t (fs_key w html_file_path) = Some (File data)
             \/ lookup t (fs_key w html_file_path) = Some Special
                /\ data = read_special E (fs_key w html_file_path)) ->
            decode_utf8 E data = Some html ->
            PDFConverter._enhance_html_for_pdf self html = Return enhanced ->
            (pisa_CreatePDF E enhanced, mkWorld t (cwd w) c) = (o, w1) ->
            cwd w1 = cwd w
            /\ ((fs w1 = fs w /\ exists e, o = Raise e)
                \/ (exists t0,
                      Return t = Return t0 /\ fs w1 = t0
                      /\ ((exists e, o = Raise e)
                          \/ exists data html enhanced,
                               (lookup t0 (fs_key w html_file_path)
                                = Some (File data)
                                \/ lookup t0 (fs_key w html_file_path)
                                   = Some Special
                                   /\ data = read_special E
                                               (fs_key w html_file_path))
                               /\ decode_utf8 E data = Some html
                               /\ PDFConverter._enhance_html_for_pdf self html
                                  = Return enhanced
                               /\ pisa_CreatePDF E enhanced = o)))).
  { intros data html enhanced c Hsrc Hdec Henh [= <- <-].
    split; [reflexivity|]. right. exists t. repeat split. right.
    exists data, html, enhanced. auto. }
  destruct (fault_at E (S (clock w))) as [e1|]; [now apply Mid|].
  unfold stat at 1. simpl.
  change (fs_key (mkWorld t (cwd w) (S (S (clock w)))) html_file_path)
    with (fs_key w html_file_path).
  destruct (lookup t (fs_key w html_file_path)) as [[data| |es']|] eqn:Hsrc.
  3-4: now apply Mid.
  - destruct (decode_utf8 E data) as [html|] eqn:Hdec; [|now apply Mid].
    destruct (PDFConverter._enhance_html_for_pdf self html)
      as [enhanced|e2] eqn:Henh; [|now apply Mid].
    simpl. destruct (fault_at E (S (S (clock w)))) as [e3|];
      [now apply Mid|].
    apply (Fin data html enhanced); auto.
  - destruct (decode_utf8 E (read_special E (fs_key w html_file_path)))
      as [html|] eqn:Hdec; [|now apply Mid].
    destruct (PDFConverter._enhance_html_for_pdf self html)
      as [enhanced|e2] eqn:Henh; [|now apply Mid].
    simpl. destruct (fault_at E (S (S (clock w)))) as [e3|];
      [now apply Mid|].
    apply (Fin (read_special E (fs_key w html_file_path)) html enhanced);
      auto.
Qed.

(** The write, seen from the file system: nothing done; the file
    created or truncated, with a part of the data at most; or all of the
    data written. *)
Lemma write_cases pdf_file_path data w r w2 :
  (open_wb E pdf_file_path ;;;
   file_write E pdf_file_path data ;;;
   ret true) w = (r, w2) ->
  cwd w2 = cwd w
  /\ ((fs w2 = fs w /\ exists e, r = Raise e)
      \/ (exists part,
            write_bytes (fs w) (fs_key w pdf_file_path) part = Return (fs w2)
            /\ exists e, r = Raise e)
      \/ (write_bytes (fs w) (fs_key w pdf_file_path) data = Return (fs w2)
          /\ r = Return true)).
Proof.
  unfold bind, open_wb, file_write, syscall, ret.
  destruct (fault_at E (clock w)) as [e0|].
  { intros [= <- <-]. split; [reflexivity|]. left. eauto. }
  simpl.
  change (fs_key (mkWorld (fs w) (cwd w) (S (clock w))) pdf_file_path)
    with (fs_key w pdf_file_path).
  destruct (write_bytes (fs w) (fs_key w pdf_file_path) []) as [t0|e0] eqn:Hopen.
  2: { intros [= <- <-]. split; [reflexivity|]. left. eauto. }
  simpl.
  change (fs_key (mkWorld t0 (cwd w) (S (clock w))) pdf_file_path)
    with (fs_key w pdf_file_path).
  destruct (fault_at E (S (clock w))) as [e1|].
  - destruct (@write_bytes_twice _ _ _ _
                (firstn (short_write E (S (clock w))) data) Hopen)
      as (-> & t1 & Hpart).
    rewrite Hpart. intros [= <- <-]. split; [reflexivity|]. right. left.
    eauto.
  - destruct (@write_bytes_twice _ _ _ _ data Hopen) as (-> & t1 & Hall).
    rewrite Hall. intros [= <- <-]. split; [reflexivity|]. right. right.
    auto.
Qed.

(** The ways a conversion can end, seen from the file system: nothing
    done; only the destination directory made; the destination created or
    truncated as well, with a part of the data at most; everything done,
    with the result [True]. *)
Lemma convert_cases self html_file_path pdf_file_path w r w' :
  PDFConverter.convert_html_to_pdf E self html_file_path pdf_file_path w
  = (r, w') ->
  cwd w' = cwd w
  /\ ((fs w' = fs w /\ r <> Return true)
      \/ (exists t,
            mkdir_parents (fs w) (fs_key w (parent pdf_file_path)) = Return t
            /\ fs w' = t /\ r <> Return true)
      \/ (exists t part,
            mkdir_parents (fs w) (fs_key w (parent pdf_file_path)) = Return t
            /\ write_bytes t (fs_key w pdf_file_path) part = Return (fs w')
            /\ r <> Return true)
      \/ (exists t data html enhanced status,
            mkdir_parents (fs w) (fs_key w (parent pdf_file_path)) = Return t
            /\ source_bytes_spec E t (fs_key w html_file_path) data
            /\ decode_utf8 E data = Some html
            /\ PDFConverter._enhance_html_for_pdf self html = Return enhanced
            /\ pisa_CreatePDF E enhanced = Return status
            /\ err status = 0
            /\ write_bytes t (fs_key w pdf_file_path) (dest status)
               = Return (fs w')
            /\ r = Return true)).
Proof.
  unfold PDFConverter.convert_html_to_pdf, try_except_Exception.
  rewrite convert_try_split. unfold bind at 1.
  destruct (convert_until_render E self html_file_path pdf_file_path w)
    as [o w1] eqn:Euntil.
  apply until_render_cases in Euntil. destruct Euntil as (Hcwd & Hcases).
  assert (Hraise : forall e w0,
            (if is_Exception e then ret false w0
             else (@Raise bool e, w0)) = (r, w') ->
            r <> Return true /\ w' = w0).
  { intros e w0. destruct (is_Exception e); intros [= <- <-];
      (split; [discriminate | reflexivity]). }
  destruct Hcases as [(Hfs & e & ->) | (t & Hmk & Hfs & Ho)].
  { intros H. apply Hraise in H. destruct H as [Hr ->].
    split; [exact Hcwd|]. left. auto. }
  destruct Ho as [(e & ->) | (data & html & enhanced & Hsrc & Hdec & Henh & Hp)].
  { intros H. apply Hraise in H. destruct H as [Hr ->].
    split; [exact Hcwd|]. right. left. exists t. auto. }
  destruct o as [status|e].
  2: { intros H. apply Hraise in H. destruct H as [Hr ->].
       split; [exact Hcwd|]. right. left. exists t. auto. }
  destruct (err status =? 0) eqn:Herr.
  2: { intros [= <- <-]. split; [exact Hcwd|]. right. left. exists t.
       repeat split; auto. discriminate. }
  apply Nat.eqb_eq in Herr.
  destruct ((open_wb E pdf_file_path;;;
             file_write E pdf_file_path (dest status);;; ret true) w1)
    as [r2 w2] eqn:Ewrite.
  apply write_cases in Ewrite. destruct Ewrite as (Hcwd2 & Hw).
  assert (Hkey : fs_key w1 pdf_file_path = fs_key w pdf_file_path)
    by (unfold fs_key; now rewrite Hcwd).
  rewrite Hkey, Hfs in Hw.
  destruct Hw as [(Hfs2 & e & ->) | [(part & Hpart & e & ->) | (Hall & ->)]].
  - intros H. apply Hraise in H. destruct H as [Hr ->].
    split; [congruence|]. right. left. exists t.
    split; [exact Hmk|]. split; [congruence | exact Hr].
  - intros H. apply Hraise in H. destruct H as [Hr ->].
    split; [congruence|]. right. right. left. exists t, part. auto.
  - intros [= <- <-]. split; [congruence|]. right. right. right.
    exists t, data, html, enhanced, status. repeat split; auto.
Qed.

(** X6.  When [convert_html_to_pdf] returns [True], the source was a
    regular file, or a special file that could be read, whose bytes
    decode to some text; the rendering engine returned a status without
    errors for the enhanced form of that text; and the destination now
    holds the bytes the engine produced (or is a special file that took
    them). *)
Theorem conversion_writes_rendering self html_file_path pdf_file_path w w' :
  PDFConverter.convert_html_to_pdf E self html_file_path pdf_file_path w
  = (Return true, w') ->
  exists data html enhanced status,
    (stat w html_file_path = Some (File data)
     \/ (stat w html_file_path = Some Special
         /\ data = read_special E (fs_key w html_file_path)))
    /\ decode_utf8 E data = Some html
    /\ PDFConverter._enhance_html_for_pdf self html = Return enhanced
    /\ pisa_CreatePDF E enhanced = Return status
    /\ err status = 0
    /\ (stat w' pdf_file_path = Some (File (dest status))
        \/ stat w' pdf_file_path = Some Special).
Proof.
  intros H. apply convert_cases in H.
  destruct H as (Hcwd & [[_ K] | [(t & _ & _ & K)
                                 | [(t & part & _ & _ & K) | H]]]);
    try congruence.
  destruct H as (t & data & html & enhanced & status
                 & Hmk & Hsrc & Hdec & Henh & Hpisa & Herr & Hwr & _).
  exists data, html, enhanced, status. repeat split; try assumption.
  - unfold stat. destruct Hsrc as [Hsrc | [Hsrc ->]].
    + left. now apply (@mkdir_parents_files _ _ _ _ _ Hmk).
    + right. split; [|reflexivity].
      now apply (@mkdir_parents_special _ _ _ _ Hmk).
  - unfold stat, fs_key. rewrite Hcwd.
    apply (@write_bytes_lookup _ _ _ _ Hwr).
Qed.

(** X7.  However a conversion ends, with [True], with [False] or with an
    interruption, every regular file at a path other than the destination
    is afterwards what it was before: the conversion never changes or
    removes the source or any other file. *)
Theorem conversion_spares_other_files
    self html_file_path pdf_file_path w r w' other data :
  PDFConverter.convert_html_to_pdf E self html_file_path pdf_file_path w
  = (r, w') ->
  fs_key w other <> fs_key w pdf_file_path ->
  stat w other = Some (File data) ->
  stat w' other = Some (File data).
Proof.
  intros H Hother Hfile. apply convert_cases in H.
  destruct H as (Hcwd & H).
  assert (Hkey : fs_key w' other = fs_key w other)
    by (unfold fs_key; now rewrite Hcwd).
  unfold stat in *. rewrite Hkey.
  destruct H as [[-> _] | [(t & Hmk & -> & _)
                         | [(t & part & Hmk & Hwr & _) | H]]].
  - exact Hfile.
  - now apply (@mkdir_parents_files _ _ _ _ _ Hmk).
  - apply (@write_bytes_other_files _ _ _ _ _ _ Hwr Hother).
    now apply (@mkdir_parents_files _ _ _ _ _ Hmk).
  - destruct H as (t & d0 & html & enhanced & status
                   & Hmk & _ & _ & _ & _ & _ & Hwr & _).
    apply (@write_bytes_other_files _ _ _ _ _ _ Hwr Hother).
    now apply (@mkdir_parents_files _ _ _ _ _ Hmk).
Qed.

(** X8.  When something that is not a directory stands where the
    destination directory should be, the conversion returns [False] after
    this one system call: the source is not read, the engine is not run,
    and the file system stays as it is. *)
Theorem conversion_blocked_directory
    self html_file_path pdf_file_path w e :
  fault_at E (clock w) = None ->
  mkdir_parents (fs w) (fs_key w (parent pdf_file_path)) = Raise e ->
  PDFConverter.convert_html_to_pdf E self html_file_path pdf_file_path w
  = (Return false, mkWorld (fs w) (cwd w) (S (clock w))).
Proof.
  intros Hfault Hmk.
  unfold PDFConverter.convert_html_to_pdf, PDFConverter.convert_try,
    try_except_Exception, bind, Path_mkdir, syscall.
  rewrite Hfault. simpl.
  change (fs_key (mkWorld (fs w) (cwd w) (S (clock w)))
                 (parent pdf_file_path))
    with (fs_key w (parent pdf_file_path)).
  rewrite Hmk. simpl. now rewrite (@mkdir_parents_error _ _ _ Hmk).
Qed.
End MoreConversion.

(* ===================================================================== *)
(** * More about the sanitizer *)
(* ===================================================================== *)

Section MoreEnhance.
Context {UD : UnicodeData} {RT : PyRuntime}.
Import PDFConverter.

(** X12.  With a runtime in which every [re.sub] fails, the sanitizer
    answers every input with the placeholder document. *)
Theorem placeholder_when_sub_fails self html_content :
  (forall fl p r s, exists e, re_sub fl p r s = Raise e) ->
  _sanitize_css_for_pdf self html_content = Return placeholder.
Proof.
  intros Hfail. rewrite sanitize_tiers.
  assert (Hsub : forall fl p r k s,
            exists e, bind (assign_sub fl p r) k s = (Raise e, s) :> (outcome str * str)).
  { intros fl p r k s. destruct (Hfail fl p r s) as (e & He). exists e.
    unfold assign_sub, get, pure, bind. rewrite He. reflexivity. }
  unfold sanitize_try.
  destruct (Hsub re.DOTALL_IGNORECASE style_pattern []
              (fun _ =>
                 assign_sub re.IGNORECASE inline_style_pattern [] ;;;
                 assign_sub re.IGNORECASE link_css_pattern [] ;;;
                 assign_sub re.IGNORECASE class_pattern [] ;;;
                 remove_css_attributes ;;;
                 assign_sub re.DOTALL_IGNORECASE script_pattern [] ;;;
                 assign_sub re.NOFLAG spaces_pattern [re.TText (U " ")] ;;;
                 assign_sub re.NOFLAG between_tags_pattern [re.TText (U "><")] ;;;
                 assign_sub re.NOFLAG after_lt_pattern [re.TText (U "<")] ;;;
                 assign_sub re.NOFLAG before_gt_pattern [re.TText (U ">")] ;;;
                 html_content <- get ;;
                 ret (strip html_content))
              html_content) as (e & ->).
  unfold sanitize_fallback.
  destruct (Hsub re.NOFLAG open_tag_pattern
              [re.TText (U "<"); re.TGroup1; re.TText (U ">")]
              (fun _ =>
                 clean_content <- get ;;
                 all_tags <- pure (re_findall re.NOFLAG any_tag_pattern
                                     clean_content) ;;
                 for_each (set_iter all_tags)
                   (fun tag =>
                      if negb (str_in (lower tag) basic_tags)
                      then assign_sub re.IGNORECASE (tag_pattern tag) []
                      else ret tt) ;;;
                 clean_content <- get ;;
                 ret clean_content)
              html_content) as (e' & ->).
  reflexivity.
Qed.
End MoreEnhance.

Section MoreSanitizer.
Context {UD : UnicodeData}.
Import re PDFConverter.

Lemma lstrip_id t : no_leading_space t -> lstrip t = t.
Proof. destruct t as [|c t]; simpl; [reflexivity|]. now intros ->. Qed.

Lemma strip_no_space t :
  (forall c, In c t -> isspace c = false) -> strip t = t.
Proof.
  intros H. unfold strip, rstrip.
  rewrite (lstrip_id t).
  - rewrite lstrip_id; [apply rev_involutive|].
    destruct (rev t) as [|c r] eqn:Er; simpl; [exact Logic.I|].
    apply H. apply in_rev. rewrite Er. now left.
  - destruct t as [|c t]; simpl; [exact Logic.I|]. apply H. now left.
Qed.

(** X10.  Plain text, without [<], [>] and quote characters, comes out of
    the sanitizer with its whitespace normalised and is otherwise
    untouched; text that has no whitespace either comes out as it went
    in. *)
Theorem plain_text_passes self t :
  plain_text t ->
  _sanitize_css_for_pdf (RT := CPython) self t
  = Return (normalize_whitespace t)
  /\ ((forall c, In c t -> isspace c = false) ->
      _sanitize_css_for_pdf (RT := CPython) self t = Return t).
Proof.
  intros Hp.
  assert (Hlt : lacks DOTALL_IGNORECASE (Lit lt_sign) t).
  { apply lacks_lt. intros c Hc. apply (Hp c Hc). }
  assert (Hq : lacks IGNORECASE (OneOf quotes) t).
  { apply lacks_quotes. intros c Hc.
    destruct (Hp c Hc) as (_ & _ & ? & ?). now split. }
  assert (Hplain : Forall (fun c => c <> lt_sign /\ c <> gt_sign)
                     (sub NOFLAG spaces_pattern [TText (U " ")] t)).
  { apply sub_Forall.
    - apply Forall_forall. intros c Hc.
      destruct (Hp c Hc) as (? & ? & _). now split.
    - repeat constructor; discriminate. }
  rewrite Forall_forall in Hplain.
  assert (Main : _sanitize_css_for_pdf (RT := CPython) self t
                 = Return (normalize_whitespace t)).
  { rewrite sanitize_CPython.
    rewrite (@sub_lacks _ DOTALL_IGNORECASE (Lit lt_sign) style_pattern [] _
               ltac:(needs_item (Atom One (Lit lt_sign))) Hlt).
    rewrite (@sub_lacks _ IGNORECASE (OneOf quotes) inline_style_pattern [] _
               ltac:(needs_item (Atom One (OneOf quotes))) Hq).
    rewrite (@sub_lacks _ IGNORECASE (OneOf quotes) link_css_pattern [] _
               ltac:(needs_item (Atom One (OneOf quotes))) Hq).
    rewrite (@sub_lacks _ IGNORECASE (OneOf quotes) class_pattern [] _
               ltac:(needs_item (Atom One (OneOf quotes))) Hq).
    rewrite (@sub_lacks _ IGNORECASE (OneOf quotes) (attr_pattern (lit "id")) [] _
               ltac:(needs_item (Atom One (OneOf quotes))) Hq).
    rewrite (@sub_lacks _ IGNORECASE (OneOf quotes)
               (attr_pattern (lit "data-" ++ [Atom Star AnyChar])) [] _
               ltac:(needs_item (Atom One (OneOf quotes))) Hq).
    rewrite (@sub_lacks _ IGNORECASE (OneOf quotes)
               (attr_pattern (lit "aria-" ++ [Atom Star AnyChar])) [] _
               ltac:(needs_item (Atom One (OneOf quotes))) Hq).
    rewrite (@sub_lacks _ IGNORECASE (OneOf quotes) (attr_pattern (lit "role")) [] _
               ltac:(needs_item (Atom One (OneOf quotes))) Hq).
    rewrite (@sub_lacks _ DOTALL_IGNORECASE (Lit lt_sign) script_pattern [] _
               ltac:(needs_item (Atom One (Lit lt_sign))) Hlt).
    rewrite (@sub_lacks _ NOFLAG (Lit gt_sign) between_tags_pattern).
    2: needs_item (Atom One (Lit gt_sign)).
    2: apply lacks_gt; intros c Hc; apply (Hplain c Hc).
    rewrite (@sub_lacks _ NOFLAG (Lit lt_sign) after_lt_pattern).
    2: needs_item (Atom One (Lit lt_sign)).
    2: apply lacks_lt; intros c Hc; apply (Hplain c Hc).
    rewrite (@sub_lacks _ NOFLAG (Lit gt_sign) before_gt_pattern).
    2: needs_item (Atom One (Lit gt_sign)).
    2: apply lacks_gt; intros c Hc; apply (Hplain c Hc).
    reflexivity. }
  split; [exact Main|].
  intros Hns. rewrite Main. f_equal. unfold normalize_whitespace.
  rewrite (@sub_lacks _ NOFLAG Space spaces_pattern).
  - now apply strip_no_space.
  - needs_item (Atom Plus Space).
  - intros x Hx. simpl. now apply Hns.
Qed.
End MoreSanitizer.

(* ===================================================================== *)
(** * The whitespace of the sanitizer's result *)
(* ===================================================================== *)

Section Whitespace.
Context {UD : UnicodeData}.
Import re PDFConverter.

Lemma atom_match_consumes fl q c s r :
  (q = One \/ q = Plus) -> In r (atom_match fl q c s) ->
  exists pre, s = pre ++ r /\ pre <> [].
Proof.
  intros Hq H. destruct s as [|x s].
  - destruct Hq as [-> | ->]; contradiction.
  - destruct Hq as [-> | ->]; simpl in H;
      destruct (cls_match fl c x); try contradiction.
    + destruct H as [<-|[]]. exists [x]. split; [reflexivity | discriminate].
    + apply star_greedy_suffix in H. destruct H as (pre & ->).
      exists (x :: pre). split; [reflexivity | discriminate].
Qed.

Lemma pattern_match_suffix fl p : forall g s g' r,
  In (g', r) (pattern_match fl p g s) -> exists pre, s = pre ++ r.
Proof.
  induction p as [|i p IH]; intros g s g' r H.
  - destruct H as [H|[]]. inversion H; subst. now exists [].
  - destruct i as [q c|q c]; [rewrite pm_Atom in H | rewrite pm_Group in H];
      apply in_flat_map in H; destruct H as (rest & Hrest & H);
      apply atom_match_suffix in Hrest; destruct Hrest as (pre & ->);
      apply IH in H; destruct H as (pre' & ->);
      exists (pre ++ pre'); now rewrite app_assoc.
Qed.

Lemma pattern_match_consumes fl p : consumes p -> forall g s g' r,
  In (g', r) (pattern_match fl p g s) ->
  exists pre, s = pre ++ r /\ pre <> [].
Proof.
  unfold consumes.
  induction p as [|i p IH]; intros Hex g s g' r H; [inversion Hex|].
  apply Exists_cons in Hex. destruct Hex as [(c & Hi) | Hex].
  - assert (Hcase : exists q, (q = One \/ q = Plus)
                      /\ (i = Atom q c \/ i = Group q c)).
    { destruct Hi as [-> | [-> | [-> | ->]]]; eauto 6. }
    destruct Hcase as (q & Hq & [-> | ->]);
      [rewrite pm_Atom in H | rewrite pm_Group in H];
      apply in_flat_map in H; destruct H as (rest & Hrest & H);
      apply (@atom_match_consumes _ _ _ _ _ Hq) in Hrest;
      destruct Hrest as (pre & -> & Hne);
      apply pattern_match_suffix in H; destruct H as (pre' & ->);
      exists (pre ++ pre'); (split; [now rewrite app_assoc|]);
      (destruct pre; [congruence | discriminate]).
  - destruct i as [q c|q c]; [rewrite pm_Atom in H | rewrite pm_Group in H];
      apply in_flat_map in H; destruct H as (rest & Hrest & H);
      apply atom_match_suffix in Hrest; destruct Hrest as (pre & ->);
      apply (IH Hex) in H; destruct H as (pre' & -> & Hne);
      exists (pre ++ pre'); (split; [now rewrite app_assoc|]);
      (destruct pre; [exact Hne | discriminate]).
Qed.

(** The three cases of one step of [re.sub] with a pattern whose matches
    are never empty. *)
Lemma sub_step fl p repl s :
  consumes p ->
  (s = [] /\ sub fl p repl s = [])
  \/ (exists c s', s = c :: s' /\ pattern_match fl p None s = []
                   /\ sub fl p repl s = c :: sub fl p repl s')
  \/ (exists text g rest, s = text ++ rest /\ text <> []
                   /\ (exists ms, pattern_match fl p None s = (g, rest) :: ms)
                   /\ sub fl p repl s = expand repl g ++ sub fl p repl rest).
Proof.
  intros Hc. destruct (pattern_match fl p None s) as [|[g rest] ms] eqn:Hm.
  - destruct s as [|c s'].
    + left. split; [reflexivity|]. now apply sub_nil.
    + right. left. exists c, s'. repeat split. now apply sub_keep.
  - right. right.
    destruct (@pattern_match_consumes fl p Hc None s g rest) as (text & Hs & Hne).
    { rewrite Hm. now left. }
    exists text, g, rest. repeat split; try assumption.
    + now exists ms.
    + now apply (@sub_hit _ fl p repl s text g rest ms).
Qed.

Lemma no_adjacent_cons c s :
  isspace c = false \/ no_leading_space s ->
  no_adjacent_spaces s -> no_adjacent_spaces (c :: s).
Proof.
  intros H Hs. split; [|exact Hs].
  destruct s as [|b s]; [exact Logic.I|]. simpl in H. tauto.
Qed.

Lemma no_adjacent_tail c s :
  no_adjacent_spaces (c :: s) ->
  (isspace c = false \/ no_leading_space s) /\ no_adjacent_spaces s.
Proof.
  intros [H Hs]. split; [|exact Hs].
  destruct s as [|b s]; [now right|]. simpl. tauto.
Qed.

Lemma no_adjacent_app_r a b :
  no_adjacent_spaces (a ++ b) -> no_adjacent_spaces b.
Proof.
  induction a as [|x a IH]; [easy|]. intros H. apply IH.
  simpl app in H. now apply no_adjacent_tail in H.
Qed.

Lemma no_adjacent_app_l a b :
  no_adjacent_spaces (a ++ b) -> no_adjacent_spaces a.
Proof.
  induction a as [|x a IH]; [easy|]. simpl app. intros H.
  apply no_adjacent_tail in H. destruct H as [H Hs].
  apply no_adjacent_cons; [|now apply IH].
  destruct H as [H|H]; [now left|]. right.
  destruct a as [|y a]; [exact Logic.I | exact H].
Qed.

Lemma no_adjacent_text t s :
  Forall (fun c => isspace c = false) t ->
  no_adjacent_spaces s -> no_adjacent_spaces (t ++ s).
Proof.
  induction 1 as [|x t Hx Ht IH]; intros Hs; [exact Hs|].
  simpl app. apply no_adjacent_cons; [now left | now apply IH].
Qed.

(** Replacing the matches of a pattern by a text without whitespace
    brings no two whitespace characters together. *)
Lemma sub_no_adjacent fl p t :
  consumes p -> t <> [] -> Forall (fun c => isspace c = false) t ->
  forall n s, length s <= n ->
  no_adjacent_spaces s ->
  no_adjacent_spaces (sub fl p [TText t] s)
  /\ (no_leading_space s -> no_leading_space (sub fl p [TText t] s)).
Proof.
  intros Hc Hne Ht. induction n as [|n IH]; intros s Hn Hs.
  - destruct s; [|simpl in Hn; lia].
    destruct (@sub_step fl p [TText t] [] Hc)
      as [(_ & ->) | [(c & s' & H & _) | (text & g & rest & H & Hx & _)]].
    + now split.
    + discriminate.
    + destruct text; [congruence | discriminate].
  - destruct (@sub_step fl p [TText t] s Hc)
      as [(_ & ->) | [(c & s' & -> & _ & ->)
                     | (text & g & rest & -> & Hx & _ & ->)]].
    + now split.
    + apply no_adjacent_tail in Hs. destruct Hs as [Hhead Hs].
      destruct (IH s') as [IH1 IH2]; [simpl in Hn; lia | exact Hs |].
      split; [|intros H; exact H].
      apply no_adjacent_cons; [|exact IH1].
      destruct Hhead as [H|H]; [now left | right; now apply IH2].
    + destruct (IH rest) as [IH1 _].
      * rewrite length_app in Hn. destruct text; [congruence|].
        simpl in Hn. lia.
      * now apply no_adjacent_app_r in Hs.
      * unfold expand. cbn [flat_map]. rewrite app_nil_r. split.
        -- now apply no_adjacent_text.
        -- intros _. destruct t as [|x t]; [congruence|].
           simpl. now inversion Ht.
Qed.

(** The longest run of a class ends where the class ends. *)
Lemma star_greedy_first fl c s :
  exists r rs, star_greedy fl c s = r :: rs
    /\ (exists pre, s = pre ++ r)
    /\ match r with x :: _ => cls_match fl c x = false | [] => True end.
Proof.
  induction s as [|x s IH]; simpl.
  - exists [], []. repeat split. now exists [].
  - destruct (cls_match fl c x) eqn:Hx.
    + destruct IH as (r & rs & -> & (pre & Hpre) & Hr).
      exists r, (rs ++ [x :: s]). repeat split; [|exact Hr].
      exists (x :: pre). now rewrite Hpre at 1.
    + exists (x :: s), []. repeat split; [now exists [] | exact Hx].
Qed.

(** [re.sub(r'\s+', ' ', s)] leaves the space U+0020 as the only
    whitespace character, never two in a row, and none at the start
    unless [s] begins with whitespace. *)
Lemma collapse_normal : forall n s, length s <= n ->
  let r := sub NOFLAG spaces_pattern [TText (U " ")] s in
  Forall (fun c => isspace c = true -> c = 32%N) r
  /\ no_adjacent_spaces r
  /\ (no_leading_space s -> no_leading_space r).
Proof.
  induction n as [|n IH]; intros s Hn; cbv zeta.
  - destruct s; [|simpl in Hn; lia].
    cbv [sub]. cbn. repeat split. constructor.
  - destruct s as [|c s'].
    + cbv [sub]. cbn. repeat split. constructor.
    + destruct (isspace c) eqn:Hsp.
      * destruct (star_greedy_first NOFLAG Space s')
          as (r & rs & Hg & (pre & Hpre) & Hr).
        assert (Hm : pattern_match NOFLAG spaces_pattern None (c :: s')
                     = (None, r) :: flat_map (pattern_match NOFLAG [] None) rs).
        { unfold spaces_pattern. rewrite pm_Atom. cbn [atom_match].
          cbn [cls_match]. rewrite Hsp, Hg. reflexivity. }
        rewrite (@sub_hit _ NOFLAG spaces_pattern [TText (U " ")]
                   (c :: s') (c :: pre) None r _ Hm);
          [|now rewrite Hpre | discriminate].
        destruct (IH r) as (IH1 & IH2 & IH3).
        { simpl in Hn. rewrite Hpre, length_app in Hn. lia. }
        assert (Hlead : no_leading_space r).
        { destruct r as [|x r]; [exact Logic.I | exact Hr]. }
        cbn [expand flat_map app]. change (U " ") with [32%N]. cbn [app].
        split; [|split].
        -- constructor; [reflexivity | exact IH1].
        -- apply no_adjacent_cons; [right; now apply IH3 | exact IH2].
        -- simpl. rewrite Hsp. discriminate.
      * rewrite sub_keep.
        2:{ apply pattern_match_first_fails; [now right | exact Hsp]. }
        destruct (IH s') as (IH1 & IH2 & IH3); [simpl in Hn; lia|].
        split; [|split].
        -- constructor; [rewrite Hsp; discriminate | exact IH1].
        -- apply no_adjacent_cons; [now left | exact IH2].
        -- intros _. exact Hsp.
Qed.

Lemma lstrip_suffix s : exists pre, s = pre ++ lstrip s.
Proof.
  induction s as [|x s (pre & IH)]; [now exists []|]. simpl.
  destruct (isspace x); [|now exists []].
  exists (x :: pre). simpl. now f_equal.
Qed.

Lemma lstrip_no_leading s : no_leading_space (lstrip s).
Proof.
  induction s as [|x s IH]; [exact Logic.I|]. simpl.
  destruct (isspace x) eqn:Hx; [exact IH | exact Hx].
Qed.

(** [strip] leaves no whitespace at either end and keeps a part of the
    string in one piece. *)
Lemma strip_ends s :
  no_leading_space (strip s) /\ no_leading_space (rev (strip s))
  /\ exists a b, s = a ++ strip s ++ b.
Proof.
  unfold strip, rstrip.
  destruct (lstrip_suffix s) as (a & Ha).
  destruct (lstrip_suffix (rev (lstrip s))) as (b & Hb).
  assert (Hmid : lstrip s = rev (lstrip (rev (lstrip s))) ++ rev b).
  { rewrite <- rev_app_distr, <- Hb. now rewrite rev_involutive. }
  split; [|split].
  - pose proof (lstrip_no_leading s) as Hl. rewrite Hmid in Hl.
    destruct (rev (lstrip (rev (lstrip s)))); [exact Logic.I | exact Hl].
  - rewrite rev_involutive. apply lstrip_no_leading.
  - exists a, (rev b). now rewrite <- Hmid.
Qed.

Lemma tidy_step p t s :
  consumes p -> t <> [] -> Forall (fun c => isspace c = false) t ->
  Forall (fun c => isspace c = true -> c = 32%N) s /\ no_adjacent_spaces s ->
  Forall (fun c => isspace c = true -> c = 32%N) (sub NOFLAG p [TText t] s)
  /\ no_adjacent_spaces (sub NOFLAG p [TText t] s).
Proof.
  intros Hc Hne Ht [Ha Hb]. split.
  - apply sub_Forall; [exact Ha|].
    apply Forall_forall. intros c Hc' Hsp. rewrite Forall_forall in Ht.
    rewrite (Ht c Hc') in Hsp. discriminate.
  - exact (proj1 (@sub_no_adjacent NOFLAG p t Hc Hne Ht (length s) s
                    (le_n _) Hb)).
Qed.

Lemma tidy_tags s :
  Forall (fun c => isspace c = true -> c = 32%N) s /\ no_adjacent_spaces s ->
  let r := sub NOFLAG before_gt_pattern [TText (U ">")]
             (sub NOFLAG after_lt_pattern [TText (U "<")]
                (sub NOFLAG between_tags_pattern [TText (U "><")] s)) in
  Forall (fun c => isspace c = true -> c = 32%N) r /\ no_adjacent_spaces r.
Proof.
  intros H. cbv zeta.
  apply tidy_step.
  { apply Exists_cons_hd. exists Space. right. left. reflexivity. }
  { discriminate. }
  { repeat constructor. }
  apply tidy_step.
  { apply Exists_cons_hd. exists (Lit lt_sign). left. reflexivity. }
  { discriminate. }
  { repeat constructor. }
  apply tidy_step.
  { apply Exists_cons_hd. exists (Lit gt_sign). left. reflexivity. }
  { discriminate. }
  { repeat constructor. }
  exact H.
Qed.

(** X11.  Whatever the document, the result of the primary pass of the
    sanitizer has normalised whitespace: its only whitespace character
    is the space U+0020, no two spaces are adjacent, and it neither
    begins nor ends with one. *)
Theorem sanitized_whitespace_normal self html_content :
  exists sanitized,
    _sanitize_css_for_pdf (RT := CPython) self html_content = Return sanitized
    /\ whitespace_normal sanitized.
Proof.
  rewrite sanitize_CPython. eexists. split; [reflexivity|].
  generalize (sub DOTALL_IGNORECASE script_pattern []
    (sub IGNORECASE (attr_pattern (lit "role")) []
    (sub IGNORECASE (attr_pattern (lit "aria-" ++ [Atom Star AnyChar])) []
    (sub IGNORECASE (attr_pattern (lit "data-" ++ [Atom Star AnyChar])) []
    (sub IGNORECASE (attr_pattern (lit "id")) []
    (sub IGNORECASE class_pattern []
    (sub IGNORECASE link_css_pattern []
    (sub IGNORECASE inline_style_pattern []
    (sub DOTALL_IGNORECASE style_pattern [] html_content))))))))).
  intros s0.
  destruct (@collapse_normal (length s0) s0 (le_n _)) as (H1 & H2 & _).
  destruct (tidy_tags (conj H1 H2)) as [H3 H4].
  revert H3 H4.
  generalize (sub NOFLAG before_gt_pattern [TText (U ">")]
    (sub NOFLAG after_lt_pattern [TText (U "<")]
    (sub NOFLAG between_tags_pattern [TText (U "><")]
    (sub NOFLAG spaces_pattern [TText (U " ")] s0)))).
  intros s4 H3 H4.
  destruct (strip_ends s4) as (Hl & Hr & a & b & Hab).
  unfold whitespace_normal. split; [|split; [|split]].
  - apply strip_Forall with (P := fun c => isspace c = true -> c = 32%N) in H3.
    rewrite Forall_forall in H3. exact H3.
  - rewrite Hab in H4. apply no_adjacent_app_r in H4.
    now apply no_adjacent_app_l in H4.
  - exact Hl.
  - exact Hr.
Qed.
End Whitespace.

(* ===================================================================== *)
(** * The command line as a whole *)
(* ===================================================================== *)

Section CommandLine.
Context {UD : UnicodeData} {RT : PyRuntime}.
Variable E : Env.
Import HTMLToPDFConverter.








(** The constructor never changes the world; on a directory it returns
    a converter with its counters at zero, on anything else it raises an
    instance of [Exception]. *)
Lemma init_outcome base_path output base_url w :
  exists r,
    HTMLToPDFConverter.__init__ base_path output base_url w = (r, w)
    /\ match r with
       | Return c =>
           is_dir w (of_str base_path) = true
           /\ html_finder c = HTMLFileFinder.mk (of_str base_path)
           /\ successful_conversions c = 0 /\ failed_conversions c = 0
       | Raise e =>
           is_dir w (of_str base_path) = false /\ is_Exception e = true
       end.
Proof.
  unfold HTMLToPDFConverter.__init__, bind, HTMLFileFinder.__init__,
    Path_exists, is_dir, ret.
  destruct (stat w (of_str base_path)) as [[data| |es]|]; simpl;
    eexists; (split; [reflexivity|]); simpl; auto.
Qed.

(** [main] without [--dry-run], case by case. *)
Lemma main_cases base_path output base_url w :
  Main.main E base_path output base_url false w
  = match HTMLToPDFConverter.__init__ base_path output base_url w with
    | (Return c, _) =>
        match convert_all E (mkState c w) with
        | (Return (successful, failed), s') =>
            (if (0 <? failed)%nat then 1 else 0, world s')
        | (Raise e, s') => (1, world s')
        end
    | (Raise e, _) => (if Main.click_accepts w base_path then 1 else 2, w)
    end.
Proof.
  unfold Main.main, Main.main_body, Main.main_try, Main.run_convert_all.
  destruct (init_outcome base_path output base_url w) as (r & Hr & H).
  unfold bind at 1. rewrite Hr.
  assert (Hclick : Main.click_accepts w base_path = true
                   \/ is_dir w (of_str base_path) = false).
  { unfold Main.click_accepts, is_dir.
    destruct (stat w (of_str base_path)) as [[| |]|]; auto. }
  destruct r as [c|e].
  - destruct H as (Hdir & _).
    destruct Hclick as [-> | K]; [|congruence]. cbn [negb].
    unfold bind.
    destruct (convert_all E (mkState c w)) as [[[a b]|e] s']; cbn [snd].
    + destruct (0 <? b)%nat; reflexivity.
    + destruct e; reflexivity.
  - destruct H as (_ & He).
    destruct (Main.click_accepts w base_path); cbn [negb]; [|reflexivity].
    destruct e; try discriminate; reflexivity.
Qed.

(** X14.  On a directory that holds no HTML file the command exits with
    status 0 and leaves the world as it found it: no system call is made
    and no output directory is created. *)
Theorem nothing_to_convert base_path output base_url w :
  is_dir w (of_str base_path) = true ->
  HTMLFileFinder.get_html_files_list
    (HTMLFileFinder.mk (of_str base_path)) w = [] ->
  Main.main E base_path output base_url false w = (0, w).
Proof.
  intros Hdir Hnone. rewrite main_cases.
  destruct (init_outcome base_path output base_url w) as (r & -> & H).
  destruct r as [c|e]; [|destruct H; congruence].
  destruct H as (_ & Hfinder & _).
  unfold convert_all, bind, get, update_self. cbn [self world].
  rewrite Hfinder, Hnone. reflexivity.
Qed.


(** X16.  The command exits with status 0 exactly when the constructor
    accepts the base path and [convert_all] returns with every discovered
    file counted as converted and none as failed. *)
Theorem exit_status_zero_iff base_path output base_url w :
  fst (Main.main E base_path output base_url false w) = 0
  <-> exists c s',
        HTMLToPDFConverter.__init__ base_path output base_url w
        = (Return c, w)
        /\ convert_all E (mkState c w)
           = (Return (length (HTMLFileFinder.get_html_files_list
                                (html_finder c) w), 0), s').
Proof.
  rewrite main_cases.
  destruct (init_outcome base_path output base_url w) as (r & Hr & H).
  rewrite Hr. destruct r as [c|e].
  - destruct H as (_ & _ & Hs & Hf).
    pose proof (convert_all_outcome E (mkState c w)) as Hout.
    destruct (convert_all E (mkState c w)) as [[[a b]|e] s'] eqn:Ec.
    + cbn [self world] in Hout. rewrite Hs, Hf in Hout.
      destruct Hout as (Ht & Hcase). split.
      * intros H0. cbn [fst] in H0.
        destruct (0 <? b)%nat eqn:Eb; [discriminate|].
        apply Nat.ltb_ge in Eb. exists c, s'. split; [reflexivity|].
        assert (Hab : a = length (HTMLFileFinder.get_html_files_list
                                    (html_finder c) w) /\ b = 0).
        { destruct Hcase as [(H1 & H2 & H3 & _) | (_ & _ & H1)]; lia. }
        destruct Hab as [-> ->]. exact Ec.
      * intros (c' & s'' & [= <-] & K). rewrite Ec in K.
        injection K as -> -> _. reflexivity.
    + split; [discriminate|]. intros (c' & s'' & [= <-] & K).
      rewrite Ec in K. discriminate.
  - split.
    + cbn [fst]. destruct (Main.click_accepts w base_path); discriminate.
    + intros (c' & s'' & K & _). discriminate.
Qed.
End CommandLine.

(* ===================================================================== *)
(** * Discovery after a conversion *)
(* ===================================================================== *)

Section Rediscovery.
Context {UD : UnicodeData} {RT : PyRuntime}.
Variable E : Env.

(** A write makes no file but its target. *)
Lemma write_bytes_files_converse p : forall n n' data q d,
  write_bytes n p data = Return n' ->
  lookup n' q = Some (File d) ->
  q = p \/ lookup n q = Some (File d).
Proof.
  induction p as [|x p IH]; intros n n' data q d; simpl.
  - destruct n; try discriminate; intros [= <-];
      (destruct q; [now left | discriminate]).
  - destruct n as [d0| |es]; try discriminate.
    destruct (lookup_entry x es) as [c|] eqn:Ex.
    + destruct (write_bytes c p data) as [c'|e] eqn:Ec; [|discriminate].
      intros [= <-]. destruct q as [|y q]; [discriminate|].
      simpl. destruct (list_eq_dec N.eq_dec x y) as [<-|Hxy].
      * rewrite lookup_entry_update, Ex. intros H.
        destruct (IH _ _ _ _ _ Ec H) as [-> | K]; [now left | now right].
      * rewrite lookup_entry_update_other by exact Hxy. now right.
    + destruct p; [|discriminate].
      intros [= <-]. destruct q as [|y q]; [discriminate|].
      simpl. destruct (list_eq_dec N.eq_dec x y) as [<-|Hxy].
      * rewrite lookup_entry_update.
        destruct q; [now left | discriminate].
      * rewrite lookup_entry_update_other by exact Hxy. now right.
Qed.

(** Away from its destination a conversion neither makes nor removes nor
    changes a file. *)
Lemma convert_files_same self html_file_path pdf_file_path w r w' :
  PDFConverter.convert_html_to_pdf E self html_file_path pdf_file_path w
  = (r, w') ->
  cwd w' = cwd w
  /\ forall k d,
       k <> fs_key w pdf_file_path ->
       (lookup (fs w') k = Some (File d) <-> lookup (fs w) k = Some (File d)).
Proof.
  intros H. apply convert_cases in H. destruct H as (Hcwd & H).
  split; [exact Hcwd|]. intros k d Hk.
  destruct H as [[-> _] | [(t & Hmk & -> & _)
                         | [(t & part & Hmk & Hwr & _) | H]]].
  - reflexivity.
  - exact (@mkdir_parents_files _ _ _ k d Hmk).
  - rewrite <- (@mkdir_parents_files _ _ _ k d Hmk). split.
    + intros K.
      destruct (@write_bytes_files_converse _ _ _ _ _ _ Hwr K); tauto.
    + now apply (@write_bytes_other_files _ _ _ _ _ _ Hwr Hk).
  - destruct H as (t & d0 & html & enhanced & status
                   & Hmk & _ & _ & _ & _ & _ & Hwr & _).
    rewrite <- (@mkdir_parents_files _ _ _ k d Hmk). split.
    + intros K.
      destruct (@write_bytes_files_converse _ _ _ _ _ _ Hwr K); tauto.
    + now apply (@write_bytes_other_files _ _ _ _ _ _ Hwr Hk).
Qed.

Lemma fs_key_beneath w base q :
  fs_key w (mkPath (root base) (names base ++ q)) = fs_key w base ++ q.
Proof.
  unfold fs_key, is_absolute. simpl.
  destruct (root base); [now rewrite app_assoc | reflexivity].
Qed.

(** What discovery finds, in terms of the file system alone. *)
Lemma found_iff self w file_path :
  In file_path (HTMLFileFinder.find_html_files self w) <->
  exists q,
    file_path = mkPath (root (HTMLFileFinder.base_path self))
                       (names (HTMLFileFinder.base_path self) ++ q)
    /\ q <> []
    /\ (exists data, lookup (fs w) (fs_key w file_path) = Some (File data))
    /\ Config.is_html_file file_path = true.
Proof.
  destruct (stat w (HTMLFileFinder.base_path self)) as [d|] eqn:Hd.
  - rewrite (find_html_files_spec _ _ _ Hd). unfold regular_file_beneath.
    split; intros (q & -> & H); exists q; (split; [reflexivity|]);
      change (lookup (fs w) (fs_key w ?p)) with (stat w p) in *;
      rewrite (stat_beneath _ _ _ Hd) in *; tauto.
  - split.
    + unfold HTMLFileFinder.find_html_files, rglob_star. rewrite Hd.
      intros [].
    + intros (q & -> & _ & (data & K) & _).
      rewrite fs_key_beneath, lookup_app in K.
      unfold stat in Hd. rewrite Hd in K. discriminate.
Qed.

Lemma last_fs_key w p : names p <> [] -> last (fs_key w p) [] = name p.
Proof.
  intros H. unfold fs_key, name.
  destruct (is_absolute p); [reflexivity|].
  destruct (exists_last H) as (l & x & ->).
  now rewrite app_assoc, !last_last.
Qed.

Lemma is_html_file_name p q :
  name p = name q -> Config.is_html_file p = Config.is_html_file q.
Proof.
  intros H. unfold Config.is_html_file, suffix. now rewrite H.
Qed.

(** X18.  A conversion neither adds nor removes an HTML file: however it
    ends, discovering again afterwards finds the same files, provided the
    destination has a file name and the name is not that of an HTML file
    (as every destination made by [get_pdf_path] for a proper file name
    is). *)
Theorem discovery_stable_under_conversion
    finder self html_file_path pdf_file_path w r w' :
  PDFConverter.convert_html_to_pdf E self html_file_path pdf_file_path w
  = (r, w') ->
  names pdf_file_path <> [] ->
  Config.is_html_file pdf_file_path = false ->
  forall file_path,
    In file_path (HTMLFileFinder.find_html_files finder w')
    <-> In file_path (HTMLFileFinder.find_html_files finder w).
Proof.
  intros Hconv Hname Hpdf file_path.
  apply convert_files_same in Hconv. destruct Hconv as (Hcwd & Hsame).
  assert (Hkey : forall p, fs_key w' p = fs_key w p)
    by (intros p; unfold fs_key; now rewrite Hcwd).
  assert (Hne : forall q,
            q <> [] ->
            Config.is_html_file
              (mkPath (root (HTMLFileFinder.base_path finder))
                      (names (HTMLFileFinder.base_path finder) ++ q)) = true ->
            fs_key w (mkPath (root (HTMLFileFinder.base_path finder))
                             (names (HTMLFileFinder.base_path finder) ++ q))
            <> fs_key w pdf_file_path).
  { intros q Hq Hhtml K.
    assert (Hnn : names (mkPath (root (HTMLFileFinder.base_path finder))
                           (names (HTMLFileFinder.base_path finder) ++ q))
                  <> []).
    { simpl. intros K'. apply app_eq_nil in K'. tauto. }
    pose proof (@last_fs_key w pdf_file_path Hname) as H1.
    pose proof (@last_fs_key w _ Hnn) as H2.
    assert (Hsame_name :
              name (mkPath (root (HTMLFileFinder.base_path finder))
                      (names (HTMLFileFinder.base_path finder) ++ q))
              = name pdf_file_path).
    { exact (eq_trans (eq_sym H2)
               (eq_trans (f_equal (fun k => last k []) K) H1)). }
    apply is_html_file_name in Hsame_name. congruence. }
  rewrite !found_iff.
  split; intros (q & -> & Hq & (data & Hfile) & Hhtml); exists q;
    (split; [reflexivity|]); (split; [exact Hq|]); (split; [|exact Hhtml]);
    exists data; rewrite Hkey in *;
    apply (Hsame _ data (Hne q Hq Hhtml)); exact Hfile.
Qed.
End Rediscovery.

(* ===================================================================== *)
(** * The upload filter and the discovery filter *)
(* ===================================================================== *)

Section UploadFilter.
Context {UD : UnicodeData}.

Lemma starts_with_app a b : starts_with a (a ++ b) = true.
Proof.
  induction a as [|x a IH]; [reflexivity|]. simpl.
  now rewrite N.eqb_refl, IH.
Qed.

Lemma endswith_app a b : endswith (a ++ b) b = true.
Proof. unfold endswith. rewrite rev_app_distr. apply starts_with_app. Qed.

(** X17.  Every path that discovery takes for an HTML file has a file
    name that the upload filter of the web front end accepts.  The upload
    filter accepts more: it looks at the end of the name, not at the
    suffix, and so takes a file whose whole name is [.html]. *)
Theorem upload_filter_wider :
  (forall file_path,
     Config.is_html_file file_path = true ->
     Upload.accepts (name file_path) = true)
  /\ exists file_path,
       Upload.accepts (name file_path) = true
       /\ Config.is_html_file file_path = false.
Proof.
  split.
  - intros file_path H. unfold Config.is_html_file, str_in in H.
    unfold Upload.accepts.
    rewrite <- (stem_suffix file_path), lower_app.
    cbn [existsb Config.SUPPORTED_EXTENSIONS] in H.
    rewrite orb_false_r in H. apply orb_prop in H.
    destruct H as [H|H]; apply str_eqb_eq in H; rewrite H, endswith_app.
    + reflexivity.
    + apply orb_true_r.
  - exists (mkPath [] [U ".html"]). split; reflexivity.
Qed.
End UploadFilter.

(* ===================================================================== *)
(** * More concrete runs *)
(* ===================================================================== *)

Lemma discovery_without_repeats_witness :
  NoDup (HTMLFileFinder.get_html_files_list site_finder site_world).
Proof.
  apply (@discovery_without_repeats identity_table site_finder site_world
           site_dir eq_refl).
  vm_compute.
  repeat split;
    repeat (constructor; [simpl; intuition discriminate|]); constructor.
Defined.

Lemma pdf_path_collision_witness :
  PDFConverter.get_pdf_path (PDFConverter.mk None)
    (of_str (U "/site/index.html")) (of_str (U "/out"))
    (of_str (U "index.html"))
  = PDFConverter.get_pdf_path (PDFConverter.mk None)
      (of_str (U "/site/index.htm")) (of_str (U "/out"))
      (of_str (U "index.htm")).
Proof.
  apply (@pdf_path_collision (PDFConverter.mk None) (U "index")
           (U "/") [U "site"] (U "/") [U "site"] (of_str (U "/out")) []).
  discriminate.
Defined.

Lemma pdf_path_beneath_output_witness :
  relative_to
    (PDFConverter.get_pdf_path (PDFConverter.mk None)
       (of_str (U "/site/docs/page.HTML")) (of_str (U "/site/output"))
       (of_str (U "docs/page.HTML")))
    (of_str (U "/site/output"))
  = Some (of_str (U "docs/page.pdf"))
  /\ ~ In (U "..") (names (of_str (U "docs/page.pdf")))
  /\ parent
       (PDFConverter.get_pdf_path (PDFConverter.mk None)
          (of_str (U "/site/docs/page.HTML")) (of_str (U "/site/output"))
          (of_str (U "docs/page.HTML")))
     = of_str (U "/site/output/docs").
Proof.
  apply (@pdf_path_beneath_output (PDFConverter.mk None)
           (of_str (U "/site/docs/page.HTML")) (of_str (U "/site/output"))
           (of_str (U "docs/page.HTML"))).
  - reflexivity.
  - vm_compute. discriminate.
  - vm_compute. intros H.
    repeat (destruct H as [H|H]; [discriminate|]). exact H.
  - vm_compute. intros H.
    repeat (destruct H as [H|H]; [discriminate|]). exact H.
Defined.

Lemma conversion_writes_rendering_witness :
  exists data html enhanced status,
    (stat site_world (of_str (U "/site/index.html")) = Some (File data)
     \/ (stat site_world (of_str (U "/site/index.html")) = Some Special
         /\ data = read_special site_env
                     (fs_key site_world (of_str (U "/site/index.html")))))
    /\ decode_utf8 site_env data = Some html
    /\ PDFConverter._enhance_html_for_pdf (RT := CPython)
         (PDFConverter.mk None) html = Return enhanced
    /\ pisa_CreatePDF site_env enhanced = Return status
    /\ err status = 0
    /\ (stat (snd (PDFConverter.convert_html_to_pdf (RT := CPython) site_env
                     (PDFConverter.mk None) (of_str (U "/site/index.html"))
                     (of_str (U "/site/output/index.pdf")) site_world))
          (of_str (U "/site/output/index.pdf"))
        = Some (File (dest status))
        \/ stat (snd (PDFConverter.convert_html_to_pdf (RT := CPython) site_env
                        (PDFConverter.mk None) (of_str (U "/site/index.html"))
                        (of_str (U "/site/output/index.pdf")) site_world))
             (of_str (U "/site/output/index.pdf"))
           = Some Special).
Proof.
  apply (@conversion_writes_rendering identity_table CPython site_env
           (PDFConverter.mk None) (of_str (U "/site/index.html"))
           (of_str (U "/site/output/index.pdf")) site_world).
  vm_compute. reflexivity.
Defined.

Lemma conversion_spares_other_files_witness :
  stat (snd (PDFConverter.convert_html_to_pdf (RT := CPython) site_env
               (PDFConverter.mk None) (of_str (U "/site/index.html"))
               (of_str (U "/site/output/index.pdf")) site_world))
       (of_str (U "/site/index.html"))
  = Some (File (U "<p>hello</p>")).
Proof.
  apply (@conversion_spares_other_files identity_table CPython site_env
           (PDFConverter.mk None) (of_str (U "/site/index.html"))
           (of_str (U "/site/output/index.pdf")) site_world
           (fst (PDFConverter.convert_html_to_pdf (RT := CPython) site_env
                   (PDFConverter.mk None) (of_str (U "/site/index.html"))
                   (of_str (U "/site/output/index.pdf")) site_world))).
  - apply surjective_pairing.
  - vm_compute. discriminate.
  - reflexivity.
Defined.

Lemma conversion_blocked_directory_witness :
  PDFConverter.convert_html_to_pdf (RT := CPython) site_env
    (PDFConverter.mk None) (of_str (U "/site/index.html"))
    (of_str (U "/site/notes.txt/index.pdf")) site_world
  = (Return false, mkWorld site_tree [] 1).
Proof.
  apply (@conversion_blocked_directory identity_table CPython site_env
           (PDFConverter.mk None) (of_str (U "/site/index.html"))
           (of_str (U "/site/notes.txt/index.pdf")) site_world
           FileExistsError).
  - reflexivity.
  - vm_compute. reflexivity.
Defined.

Lemma plain_text_passes_witness :
  PDFConverter._sanitize_css_for_pdf (RT := CPython) (PDFConverter.mk None)
    (U "  two   words ")
  = Return (U "two words").
Proof.
  transitivity (Return (normalize_whitespace (U "  two   words "))).
  - apply (@plain_text_passes identity_table (PDFConverter.mk None)).
    apply plain_text_forallb. reflexivity.
  - vm_compute. reflexivity.
Defined.

Lemma placeholder_when_sub_fails_witness :
  PDFConverter._sanitize_css_for_pdf (RT := no_re) (PDFConverter.mk None)
    (U "<p>hello</p>")
  = Return PDFConverter.placeholder.
Proof.
  apply (@placeholder_when_sub_fails identity_table no_re).
  intros fl p r s. exists re_error. reflexivity.
Defined.

Lemma nothing_to_convert_witness :
  Main.main (RT := CPython) site_env (U "/empty") None None false bare_world
  = (0, bare_world).
Proof.
  apply (@nothing_to_convert identity_table CPython site_env).
  - reflexivity.
  - reflexivity.
Defined.


Lemma discovery_stable_under_conversion_witness :
  In (of_str (U "/site/index.html"))
     (HTMLFileFinder.find_html_files site_finder
        (snd (PDFConverter.convert_html_to_pdf (RT := CPython) site_env
                (PDFConverter.mk None) (of_str (U "/site/index.html"))
                (of_str (U "/site/output/index.pdf")) site_world)))
  <-> In (of_str (U "/site/index.html"))
         (HTMLFileFinder.find_html_files site_finder site_world).
Proof.
  apply (@discovery_stable_under_conversion identity_table CPython site_env
           site_finder (PDFConverter.mk None) (of_str (U "/site/index.html"))
           (of_str (U "/site/output/index.pdf")) site_world
           (fst (PDFConverter.convert_html_to_pdf (RT := CPython) site_env
                   (PDFConverter.mk None) (of_str (U "/site/index.html"))
                   (of_str (U "/site/output/index.pdf")) site_world))).
  - apply surjective_pairing.
  - vm_compute. discriminate.
  - reflexivity.
Defined.
